(** * The reconciliation planner and the endpoint filter of external-dns

    The first part is a shallow embedding of [plan/plan.go]; the second part
    models the endpoint filter of package [source], of which only the test is
    at hand.  Records are handled through
    pointers ([*endpoint.Endpoint]) and the planner writes through them, so
    the embedding threads an explicit store: a finite map from locations to
    records, and one from locations to plans.  A location that is not
    allocated in the store plays the role of [nil]; dereferencing it is a
    panic, which the embedding renders as [None]. *)

From stdpp Require Import base option list gmap strings.
From Stdlib Require Import ZArith NArith Ascii.

Local Open Scope string_scope.
Local Open Scope list_scope.

(** ** Package endpoint *)

(** Modelled from the spec: package [endpoint] is imported by [plan.go] but
    its source is absent.  The spec gives a record a [ttl] with an
    "unconfigured" sentinel state and a [labels] mapping of string keys to
    string values that [MergeLabels] merges; which values are the sentinel and
    which side wins a merge is left open, so both are taken as an interface. *)
Class EndpointPkg := {
  TTL : Type;
  TTL_eq_dec :: EqDecision TTL;
  IsConfigured : TTL → bool;
  MergeLabels : gmap string string → gmap string string → gmap string string;
}.

(** The fields of [endpoint.Endpoint] that [plan.go] reads and writes; the
    record takes the type of TTLs as its parameter. *)
Record Endpoint {T : Type} := mkEndpoint {
  DNSName : string;
  Target : string;
  RecordType : string;
  RecordTTL : T;
  Labels : gmap string string;
}.

Arguments Endpoint : clear implicits.
Arguments mkEndpoint {_} _ _ _ _ _.

(** A pointer is a location of the store. *)
Abbreviation ptr := positive.

(** [plan.Changes]: four slices of record pointers. *)
Record Changes := mkChanges {
  Create : list ptr;
  UpdateOld : list ptr;
  UpdateNew : list ptr;
  Delete : list ptr;
}.

(** [plan.Policy] is an interface with the single method [Apply]. *)
Record Policy := mkPolicy {
  Apply : Changes → Changes;
}.

(** [plan.Plan].  The field [Changes] of the source is [PlanChanges] here,
    since the record type already carries that name; a [nil] pointer is
    [None]. *)
Record Plan := mkPlan {
  Current : list ptr;
  Desired : list ptr;
  Policies : list Policy;
  PlanChanges : option Changes;
}.

(** What the pointers of a run point to: the records and the plans. *)
Record Store {T : Type} := mkStore {
  endpoints : gmap ptr (Endpoint T);
  plans : gmap ptr Plan;
}.

Arguments Store : clear implicits.
Arguments mkStore {_} _ _.

Section planner.
Context `{EndpointPkg}.

Abbreviation Endpoint := (Endpoint TTL).
Abbreviation Store := (Store TTL).

(** ** A state-and-panic monad over the store *)

Definition M (A : Type) : Type := Store → option (A * Store).

Definition ret {A} (a : A) : M A := λ σ, Some (a, σ).

Definition bind {A B} (m : M A) (k : A → M B) : M B :=
  λ σ, match m σ with
       | Some (a, σ') => k a σ'
       | None => None
       end.

Notation "'let*' x := m 'in' k" := (bind m (λ x, k))
  (at level 10, x binder, k at level 200).

(** [*p] for a record pointer. *)
Definition load (p : ptr) : M Endpoint :=
  λ σ, match endpoints σ !! p with
       | Some e => Some (e, σ)
       | None => None
       end.

(** A write to one field of [*p]. *)
Definition modify (p : ptr) (f : Endpoint → Endpoint) : M unit :=
  λ σ, match endpoints σ !! p with
       | Some e => Some (tt, mkStore (<[p := f e]> (endpoints σ)) (plans σ))
       | None => None
       end.

Definition loadPlan (p : ptr) : M Plan :=
  λ σ, match plans σ !! p with
       | Some pl => Some (pl, σ)
       | None => None
       end.

(** [&Plan{...}]: a plan at a location not in use. *)
Definition newPlan (pl : Plan) : M ptr :=
  λ σ, let q := fresh (dom (plans σ)) in
       Some (q, mkStore (endpoints σ) (<[q := pl]> (plans σ))).

(** [for _, x := range l { s = body(s, x) }] *)
Fixpoint forRange {A S : Type} (body : S → A → M S) (l : list A) (s : S) : M S :=
  match l with
  | [] => ret s
  | x :: rest => let* s' := body s x in forRange body rest s'
  end.

Definition setLabels (v : gmap string string) (e : Endpoint) : Endpoint :=
  mkEndpoint (DNSName e) (Target e) (RecordType e) (RecordTTL e) v.

Definition setRecordType (v : string) (e : Endpoint) : Endpoint :=
  mkEndpoint (DNSName e) (Target e) v (RecordTTL e) (Labels e).

Definition setRecordTTL (v : TTL) (e : Endpoint) : Endpoint :=
  mkEndpoint (DNSName e) (Target e) (RecordType e) v (Labels e).

(** [e.MergeLabels(labels)] writes the merged map to [e.Labels]. *)
Definition Endpoint_MergeLabels (e : ptr) (labels : gmap string string) : M unit :=
  modify e (λ r, setLabels (MergeLabels (Labels r) labels) r).

(** ** plan.go *)

Definition emptyChanges : Changes := mkChanges [] [] [] [].

Definition appendCreate (c : Changes) (p : ptr) : Changes :=
  mkChanges (Create c ++ [p]) (UpdateOld c) (UpdateNew c) (Delete c).

Definition appendUpdateOld (c : Changes) (p : ptr) : Changes :=
  mkChanges (Create c) (UpdateOld c ++ [p]) (UpdateNew c) (Delete c).

Definition appendUpdateNew (c : Changes) (p : ptr) : Changes :=
  mkChanges (Create c) (UpdateOld c) (UpdateNew c ++ [p]) (Delete c).

Definition appendDelete (c : Changes) (p : ptr) : Changes :=
  mkChanges (Create c) (UpdateOld c) (UpdateNew c) (Delete c ++ [p]).

Definition targetChanged (desired current : ptr) : M bool :=
  let* d := load desired in
  let* c := load current in
  ret (negb (bool_decide (Target d = Target c))).

Definition shouldUpdateTTL (desired current : ptr) : M bool :=
  let* d := load desired in
  if negb (IsConfigured (RecordTTL d)) then ret false
  else
    let* c := load current in
    ret (negb (bool_decide (RecordTTL d = RecordTTL c))).

(** [recordExists]: the pair [(record, true)] is [Some record] and
    [(nil, false)] is [None].  The needle is only dereferenced inside the
    loop, as in the source. *)
Fixpoint recordExists (needle : ptr) (haystack : list ptr) : M (option ptr) :=
  match haystack with
  | [] => ret None
  | record :: rest =>
      let* r := load record in
      let* n := load needle in
      if bool_decide (DNSName r = DNSName n) then ret (Some record)
      else recordExists needle rest
  end.

(** The body of the first loop of [Calculate] (logging left out). *)
Definition planDesired (current : list ptr) (changes : Changes) (desired : ptr)
  : M Changes :=
  let* found := recordExists desired current in
  match found with
  | None => ret (appendCreate changes desired)
  | Some cur =>
      let* tc := targetChanged desired cur in
      let* sut := shouldUpdateTTL desired cur in
      if negb tc && negb sut then ret changes
      else
        let changes := appendUpdateOld changes cur in
        let* c := load cur in
        let* _ := Endpoint_MergeLabels desired (Labels c) in
        let* _ := (if tc
                   then let* c := load cur in
                        modify desired (setRecordType (RecordType c))
                   else ret tt) in
        let* _ := (if negb sut
                   then let* c := load cur in
                        modify desired (setRecordTTL (RecordTTL c))
                   else ret tt) in
        ret (appendUpdateNew changes desired)
  end.

(** The body of the second loop. *)
Definition planCurrent (desired : list ptr) (changes : Changes) (current : ptr)
  : M Changes :=
  let* found := recordExists current desired in
  match found with
  | None => ret (appendDelete changes current)
  | Some _ => ret changes
  end.

(** [for _, pol := range p.Policies { changes = pol.Apply(changes) }] *)
Fixpoint applyPolicies (policies : list Policy) (changes : Changes) : Changes :=
  match policies with
  | [] => changes
  | pol :: rest => applyPolicies rest (Apply pol changes)
  end.

(** The two loops of [Calculate]: the change set before any policy. *)
Definition diff (pl : Plan) : M Changes :=
  let* changes := forRange (planDesired (Current pl)) (Desired pl) emptyChanges in
  forRange (planCurrent (Desired pl)) (Current pl) changes.

(** [func (p *Plan) Calculate() *Plan].  The receiver is read once: nothing
    in the loops writes to a plan, so [p.Current] and [p.Desired] are the
    same at every iteration. *)
Definition Calculate (p : ptr) : M ptr :=
  let* pl := loadPlan p in
  let* changes := diff pl in
  let changes := applyPolicies (Policies pl) changes in
  newPlan (mkPlan (Current pl) (Desired pl) [] (Some changes)).

(** ** Vocabulary of the statements *)

(** The DNS name read through a pointer ([None] for [nil]). *)
Definition nameOf (σ : Store) (p : ptr) : option string :=
  DNSName <$> endpoints σ !! p.

(** No pointer of the slice is [nil]. *)
Definition allocated (σ : Store) (l : list ptr) : Prop :=
  Forall (λ p, is_Some (endpoints σ !! p)) l.

(** The plan at [p] and its two slices are there to be read. *)
Definition planAt (σ : Store) (p : ptr) (pl : Plan) : Prop :=
  plans σ !! p = Some pl ∧ allocated σ (Desired pl) ∧ allocated σ (Current pl).

(** The first pointer of [l] whose record carries the name [n]. *)
Definition findName (σ : Store) (n : option string) (l : list ptr) : option ptr :=
  snd <$> list_find (λ r, nameOf σ r = n) l.

(** The record of [haystack] that [needle] is matched with. *)
Definition matchOf (σ : Store) (haystack : list ptr) (needle : ptr) : option ptr :=
  findName σ (nameOf σ needle) haystack.

(** Some record of [l] carries the name [n]. *)
Definition hasName (σ : Store) (n : string) (l : list ptr) : Prop :=
  ∃ r, r ∈ l ∧ nameOf σ r = Some n.

(** How many entries of [l] carry the name [n]. *)
Definition countName (σ : Store) (n : string) (l : list ptr) : nat :=
  length (filter (λ r, nameOf σ r = Some n) l).

(** How many entries of [l] are the pointer [r]. *)
Definition countPtr (r : ptr) (l : list ptr) : nat :=
  length (filter (λ x, x = r) l).

(** [Calculate] on the plan at [p], started in [σ], ends in [σ'] and returns
    a pointer to a plan whose change set is [cs]. *)
Definition Calculated (p : ptr) (σ : Store) (cs : Changes) (σ' : Store) : Prop :=
  ∃ q pl', Calculate p σ = Some (q, σ') ∧ plans σ' !! q = Some pl' ∧
           PlanChanges pl' = Some cs.

(** The decision of the update branch, on the records themselves. *)
Definition targetDiffers (d c : Endpoint) : bool :=
  negb (bool_decide (Target d = Target c)).

Definition ttlDiffers (d c : Endpoint) : bool :=
  IsConfigured (RecordTTL d) && negb (bool_decide (RecordTTL d = RecordTTL c)).

(** What the update branch leaves in the desired record. *)
Definition inherit (d c : Endpoint) : Endpoint :=
  mkEndpoint (DNSName d) (Target d)
    (if targetDiffers d c then RecordType c else RecordType d)
    (if ttlDiffers d c then RecordTTL d else RecordTTL c)
    (MergeLabels (Labels d) (Labels c)).

(** Names and targets are never written, and no record is added or lost. *)
Definition stable (σ σ' : Store) : Prop :=
  plans σ' = plans σ ∧
  ∀ p, match endpoints σ !! p, endpoints σ' !! p with
       | Some e, Some e' => DNSName e' = DNSName e ∧ Target e' = Target e
       | None, None => True
       | _, _ => False
       end.

(** The pair the update branch appends for the desired record [d], judged
    on the records of [σ]: its match and itself, when the target differs or
    the configured TTL differs. *)
Definition updateOf (σ : Store) (cur : list ptr) (d : ptr) : option (ptr * ptr) :=
  match matchOf σ cur d with
  | Some c =>
      match endpoints σ !! d, endpoints σ !! c with
      | Some ed, Some ec =>
          if targetDiffers ed ec || ttlDiffers ed ec then Some (c, d) else None
      | _, _ => None
      end
  | None => None
  end.

(** What is behind the desired pointer [d] after one pass of the first loop
    over it, in terms of the records of [σ]. *)
Definition finalOf (σ : Store) (cur : list ptr) (d : ptr) : option Endpoint :=
  match endpoints σ !! d with
  | Some ed =>
      match matchOf σ cur d with
      | Some c =>
          match endpoints σ !! c with
          | Some ec =>
              if targetDiffers ed ec || ttlDiffers ed ec
              then Some (inherit ed ec) else Some ed
          | None => Some ed
          end
      | None => Some ed
      end
  | None => None
  end.

(** The store [σ] decides every update as [σ0] does: each desired record
    differs from its match in [σ] exactly when it does in [σ0], and the match
    itself is as in [σ0]. *)
Definition agrees (cur : list ptr) (σ0 σ : Store) : Prop :=
  stable σ0 σ ∧
  ∀ d c ed ec,
    matchOf σ0 cur d = Some c →
    endpoints σ0 !! d = Some ed → endpoints σ0 !! c = Some ec →
    ∃ ed', endpoints σ !! d = Some ed' ∧ endpoints σ !! c = Some ec ∧
           targetDiffers ed' ec = targetDiffers ed ec ∧
           ttlDiffers ed' ec = ttlDiffers ed ec.

End planner.

(** ** A reading of package endpoint to run the planner on *)

(** Modelled from the spec: the spec describes [ttl] as an optional integer
    with an "unconfigured" state, and [labels] as a string-to-string mapping
    into which the labels of the current record are merged.  Here a TTL is
    [option Z], unconfigured when absent, and a merge keeps a label the record
    already has and takes the others from the current record. *)
Definition specEndpoint : EndpointPkg := {|
  TTL := option Z;
  IsConfigured := λ ttl, match ttl with Some _ => true | None => false end;
  MergeLabels := λ own inherited, own ∪ inherited;
|}.

Section examples.
#[local] Existing Instance specEndpoint.

Abbreviation Endpoint := (Endpoint TTL).
Abbreviation Store := (Store TTL).

Definition ownedBy (owner : string) : gmap string string := {[ "owner" := owner ]}.

Definition recA1 : Endpoint :=
  mkEndpoint "a.example.org" "1.1.1.1" "A" (Some 300%Z) (ownedBy "me").
Definition recA2 : Endpoint := mkEndpoint "a.example.org" "2.2.2.2" "CNAME" None ∅.
Definition recA3 : Endpoint := mkEndpoint "a.example.org" "3.3.3.3" "A" None ∅.
Definition recB : Endpoint := mkEndpoint "b.example.org" "4.4.4.4" "A" None ∅.
Definition recC : Endpoint := mkEndpoint "c.example.org" "5.5.5.5" "A" None ∅.

Definition exampleRecords : gmap ptr Endpoint :=
  {[ 1%positive := recA1; 2%positive := recA2; 3%positive := recA3;
     4%positive := recB; 5%positive := recC ]}.

(** Current [a -> 1.1.1.1, c]; desired [a -> 2.2.2.2, b]: one update, one
    creation, one deletion. *)
Definition planUpdate : Plan := mkPlan [1; 5]%positive [2; 4]%positive [] None.

(** The same current record listed twice, nothing desired. *)
Definition planTwice : Plan := mkPlan [5; 5]%positive [] [] None.

(** Two desired records of one name against one current record. *)
Definition planTwoDesired : Plan := mkPlan [1]%positive [2; 3]%positive [] None.

(** Desired and current agree. *)
Definition planSame : Plan := mkPlan [1; 5]%positive [5; 1]%positive [] None.

Definition exampleStore (pl : Plan) : Store :=
  mkStore exampleRecords {[ 10%positive := pl ]}.

(** Modelled from the spec: the policy "upsert-only" of package plan (its
    source is absent) returns its input with [delete] cleared. *)
Definition UpsertOnlyPolicy : Policy :=
  mkPolicy (λ cs, mkChanges (Create cs) (UpdateOld cs) (UpdateNew cs) []).

(** Modelled from the spec: the policy "sync" returns its input unchanged. *)
Definition SyncPolicy : Policy := mkPolicy (λ cs, cs).

(** Nothing current, and a [nil] pointer among the desired. *)
Definition planOnlyDesired : Plan := mkPlan [] [99; 2]%positive [] None.

(** Nothing desired, and a [nil] pointer among the current. *)
Definition planOnlyCurrent : Plan := mkPlan [99; 5]%positive [] [] None.

(** [planUpdate] with the two lists exchanged. *)
Definition planMirror : Plan := mkPlan [2; 4]%positive [1; 5]%positive [] None.

(** The store with the plan of [planUpdate] at 10 and its mirror at 20. *)
Definition mirrorStore : Store :=
  mkStore exampleRecords {[ 10%positive := planUpdate; 20%positive := planMirror ]}.

Definition planPolicies : Plan :=
  mkPlan [1; 5]%positive [2; 4]%positive [SyncPolicy; UpsertOnlyPolicy] None.

End examples.

(** * The endpoint filter (package source) *)

(** Of the filter only the test [filter_source_test.go] is at hand; its
    source is absent, so the filter is modelled from the spec. *)

(** Modelled from the spec: the part of Go's package [net] the CIDR rule
    needs, parsing an IP literal and testing whether a network contains an
    address, taken as an interface. *)
Class NetPkg := {
  IP : Type;
  IPNet : Type;
  ParseIP : string → option IP;
  Contains : IPNet → IP → bool;
}.

(** Modelled from the spec: the record types named by the spec and used by
    the test ([endpoint.RecordTypeA], [endpoint.RecordTypeCNAME]). *)
Definition RecordTypeA : string := "A".
Definition RecordTypeCNAME : string := "CNAME".

Section filter.
Context `{EndpointPkg} `{NetPkg}.

Abbreviation Endpoint := (Endpoint TTL).
Abbreviation Store := (Store TTL).

(** Modelled from the spec: the filter configuration, "a set of excluded IP
    networks (CIDR ranges), a set of excluded DNS-name patterns (literal or
    single-level wildcard), and a set of required base-domain suffixes". *)
Record FilterConfig := mkFilterConfig {
  baseDomains : list string;
  cidrIgnore : list IPNet;
  dnsIgnore : list string;
}.

(** Modelled from the spec: CIDR exclusion "applies only to records of type
    A.  For such a record, parse target as an IP literal; if it falls inside
    any configured excluded network, drop the record.  If target does not
    parse as an IP, the record is retained." *)
Definition cidrExcluded (nets : list IPNet) (e : Endpoint) : bool :=
  if bool_decide (RecordType e = RecordTypeA) then
    match ParseIP (Target e) with
    | Some ip => existsb (λ net, Contains net ip) nets
    | None => false
    end
  else false.

(** A string as its characters. *)
Definition chars (s : string) : list ascii := String.list_ascii_of_string s.

Definition dot : ascii := "."%char.

(** Modelled from the spec: "exactly one label (no further dot)". *)
Definition oneLabel (s : list ascii) : bool :=
  negb (bool_decide (s = [])) && negb (bool_decide (dot ∈ s)).

(** [name] ends with [suffix]; the part before it. *)
Definition stripSuffix (suffix name : list ascii) : option (list ascii) :=
  let k := length name - length suffix in
  if bool_decide (length suffix ≤ length name)%nat && bool_decide (drop k name = suffix)
  then Some (take k name) else None.

(** Modelled from the spec: a name matches the wildcard pattern [*.suffix]
    iff it "is not itself equal to the literal string *.suffix", it "ends with
    .suffix", and "the portion of name preceding suffix contains exactly one
    label". *)
Definition matchWildcard (suffix name : string) : bool :=
  negb (bool_decide (name = String "*" (String "." suffix))) &&
  match stripSuffix (dot :: chars suffix) (chars name) with
  | Some label => oneLabel label
  | None => false
  end.

(** Modelled from the spec: "each configured ignore pattern is either a
    literal name (exact match drops the record) or a single-level wildcard of
    the form *.suffix". *)
Definition matchIgnore (pattern name : string) : bool :=
  match pattern with
  | String "*" (String "." suffix) => matchWildcard suffix name
  | _ => bool_decide (name = pattern)
  end.

Definition dnsIgnored (patterns : list string) (e : Endpoint) : bool :=
  existsb (λ pattern, matchIgnore pattern (DNSName e)) patterns.

(** Modelled from the spec: base-domain inclusion, a name "ends with one of
    them at a label boundary"; "if no suffixes are configured, this filter is
    a no-op". *)
Definition matchDomain (domain name : string) : bool :=
  bool_decide (name = domain) ||
  match stripSuffix (dot :: chars domain) (chars name) with
  | Some _ => true
  | None => false
  end.

Definition domainIncluded (domains : list string) (e : Endpoint) : bool :=
  match domains with
  | [] => true
  | _ => existsb (λ domain, matchDomain domain (DNSName e)) domains
  end.

(** Modelled from the spec: a "record survives only if it passes every
    configured filter". *)
Definition survives (cfg : FilterConfig) (e : Endpoint) : bool :=
  negb (cidrExcluded (cidrIgnore cfg) e) &&
  negb (dnsIgnored (dnsIgnore cfg) e) &&
  domainIncluded (baseDomains cfg) e.

Definition filterEndpoints (cfg : FilterConfig) (l : list Endpoint) : list Endpoint :=
  filter (λ e, survives cfg e = true) l.

(** Modelled from the spec: [Endpoints() -> (sequence of Record, error)];
    "if the inner source fails, the failure is returned unchanged ... and no
    records are produced". *)
Definition Endpoints {Err : Type} (cfg : FilterConfig)
    (inner : Err + list Endpoint) : Err + list Endpoint :=
  match inner with
  | inl err => inl err
  | inr l => inr (filterEndpoints cfg l)
  end.

End filter.

(** Modelled from the spec: a stand-in for Go's [net] on dotted-quad IPv4
    literals, enough for the CIDR scenario of the spec and the test: an
    address is a 32-bit number, a network an address with a prefix length. *)
Definition digit (a : ascii) : option N :=
  let n := N_of_ascii a in
  if ((48 <=? n) && (n <=? 57))%N then Some (n - 48)%N else None.

Fixpoint decimal (s : list ascii) (acc : N) : option N :=
  match s with
  | [] => Some acc
  | a :: rest =>
      match digit a with
      | Some d => decimal rest (acc * 10 + d)%N
      | None => None
      end
  end.

Definition octet (s : list ascii) : option N :=
  match s with
  | [] => None
  | _ =>
      match decimal s 0 with
      | Some n => if ((n <=? 255)%N && bool_decide (length s ≤ 3)%nat) then Some n else None
      | None => None
      end
  end.

(** The fields of [s] between dots. *)
Fixpoint fields (s : list ascii) (cur : list ascii) : list (list ascii) :=
  match s with
  | [] => [cur]
  | a :: rest =>
      if bool_decide (a = dot) then cur :: fields rest []
      else fields rest (cur ++ [a])
  end.

Definition ParseIPv4 (s : string) : option N :=
  match fields (chars s) [] with
  | [a; b; c; d] =>
      match octet a, octet b, octet c, octet d with
      | Some a, Some b, Some c, Some d =>
          Some (N.lor (N.shiftl a 24) (N.lor (N.shiftl b 16) (N.lor (N.shiftl c 8) d)))
      | _, _, _, _ => None
      end
  | _ => None
  end.

Definition ContainsIPv4 (net : N * N) (ip : N) : bool :=
  let '(addr, prefix) := net in
  (N.shiftr ip (32 - prefix) =? N.shiftr addr (32 - prefix))%N.

Definition ipv4 : NetPkg := {|
  IP := N;
  IPNet := N * N;
  ParseIP := ParseIPv4;
  Contains := ContainsIPv4;
|}.

Section filter_examples.
#[local] Existing Instance specEndpoint.
#[local] Existing Instance ipv4.

Abbreviation Endpoint := (Endpoint TTL).
Abbreviation Store := (Store TTL).

Definition testRecord (name target type : string) : Endpoint :=
  mkEndpoint name target type None ∅.

(** [net.ParseCIDR("192.168.100.0/24")] *)
Definition testCidr : IPNet := (3232261120%N, 24%N).

(** The configuration of [testFilterCidrEndpoints]. *)
Definition cidrConfig : FilterConfig := mkFilterConfig [] [testCidr] [].

(** The configuration of [testFilterDNSNames]. *)
Definition dnsConfig : FilterConfig :=
  mkFilterConfig [] [] ["*.example.com"; "foo.bar.example.com"].

End filter_examples.

Section planner_facts.
Context `{EndpointPkg}.

Abbreviation Endpoint := (Endpoint TTL).
Abbreviation Store := (Store TTL).

Notation "'let*' x := m 'in' k" := (bind m (λ x, k))
  (at level 10, x binder, k at level 200).

Implicit Types (σ : Store) (p q r d c : ptr) (l : list ptr).

Lemma load_Some σ p e : endpoints σ !! p = Some e → load p σ = Some (e, σ).
Proof. intros E. unfold load. by rewrite E. Qed.

Lemma nameOf_Some σ p e : endpoints σ !! p = Some e → nameOf σ p = Some (DNSName e).
Proof. intros E. unfold nameOf. by rewrite E. Qed.

Lemma nameOf_is_Some σ p : is_Some (nameOf σ p) ↔ is_Some (endpoints σ !! p).
Proof. unfold nameOf. by rewrite fmap_is_Some. Qed.

Lemma findName_cons σ n r l :
  findName σ n (r :: l) = if decide (nameOf σ r = n) then Some r else findName σ n l.
Proof.
  unfold findName. simpl. case_decide; [done|].
  destruct (list_find _ l) as [[i x]|]; done.
Qed.

Lemma findName_Some σ n l r :
  findName σ n l = Some r →
  ∃ i, l !! i = Some r ∧ nameOf σ r = n ∧
       ∀ j x, l !! j = Some x → j < i → nameOf σ x ≠ n.
Proof.
  unfold findName. destruct (list_find _ l) as [[i x]|] eqn:E; [|done].
  intros [= <-]. apply list_find_Some in E. exists i. naive_solver.
Qed.

Lemma findName_None σ n l :
  findName σ n l = None ↔ ∀ r, r ∈ l → nameOf σ r ≠ n.
Proof.
  unfold findName. rewrite fmap_None, list_find_None, Forall_forall. done.
Qed.

Lemma findName_elem σ n l r : findName σ n l = Some r → r ∈ l ∧ nameOf σ r = n.
Proof.
  intros (i & Hi & Hn & _)%findName_Some. split; [|done].
  by eapply list_elem_of_lookup_2.
Qed.

Lemma recordExists_allocated σ needle l :
  is_Some (endpoints σ !! needle) → allocated σ l →
  recordExists needle l σ = Some (findName σ (nameOf σ needle) l, σ).
Proof.
  intros [n Hn] Hl. induction Hl as [|r l [e He] Hl IH]; [done|].
  rewrite findName_cons. cbn [recordExists]. unfold bind at 1.
  rewrite (load_Some _ _ _ He). unfold bind at 1. rewrite (load_Some _ _ _ Hn).
  rewrite (nameOf_Some _ _ _ He), (nameOf_Some _ _ _ Hn) in *.
  case_bool_decide as Hd; case_decide as Hd'; try done.
  - destruct Hd'. by f_equal.
  - by injection Hd'.
Qed.

Lemma targetChanged_Some σ d c ed ec :
  endpoints σ !! d = Some ed → endpoints σ !! c = Some ec →
  targetChanged d c σ = Some (targetDiffers ed ec, σ).
Proof.
  intros Hd Hc. unfold targetChanged, bind.
  by rewrite (load_Some _ _ _ Hd), (load_Some _ _ _ Hc).
Qed.

Lemma shouldUpdateTTL_Some σ d c ed ec :
  endpoints σ !! d = Some ed → endpoints σ !! c = Some ec →
  shouldUpdateTTL d c σ = Some (ttlDiffers ed ec, σ).
Proof.
  intros Hd Hc. unfold shouldUpdateTTL, ttlDiffers, bind.
  rewrite (load_Some _ _ _ Hd).
  destruct (IsConfigured (RecordTTL ed)); simpl; [|done].
  by rewrite (load_Some _ _ _ Hc).
Qed.

Lemma differs_self (e : Endpoint) : targetDiffers e e = false ∧ ttlDiffers e e = false.
Proof.
  unfold targetDiffers, ttlDiffers. rewrite !bool_decide_eq_true_2 by done.
  by rewrite andb_false_r.
Qed.

(** The three outcomes of one iteration of the first loop. *)
Lemma planDesired_create σ cur ch d :
  is_Some (endpoints σ !! d) → allocated σ cur →
  findName σ (nameOf σ d) cur = None →
  planDesired cur ch d σ = Some (appendCreate ch d, σ).
Proof.
  intros Hd Hcur Hf. unfold planDesired, bind.
  by rewrite (recordExists_allocated _ _ _ Hd Hcur), Hf.
Qed.

Lemma planDesired_skip σ cur ch d c ed ec :
  allocated σ cur →
  endpoints σ !! d = Some ed → endpoints σ !! c = Some ec →
  findName σ (nameOf σ d) cur = Some c →
  targetDiffers ed ec = false → ttlDiffers ed ec = false →
  planDesired cur ch d σ = Some (ch, σ).
Proof.
  intros Hcur Hd Hc Hf Ht Hl. unfold planDesired. unfold bind at 1.
  rewrite (recordExists_allocated _ _ _ (mk_is_Some _ _ Hd) Hcur), Hf.
  unfold bind at 1. rewrite (targetChanged_Some _ _ _ _ _ Hd Hc).
  unfold bind at 1. rewrite (shouldUpdateTTL_Some _ _ _ _ _ Hd Hc).
  by rewrite Ht, Hl.
Qed.

Lemma planDesired_update σ cur ch d c ed ec :
  allocated σ cur →
  endpoints σ !! d = Some ed → endpoints σ !! c = Some ec →
  findName σ (nameOf σ d) cur = Some c →
  targetDiffers ed ec || ttlDiffers ed ec = true →
  planDesired cur ch d σ =
    Some (appendUpdateNew (appendUpdateOld ch c) d,
          mkStore (<[d := inherit ed ec]> (endpoints σ)) (plans σ)).
Proof.
  intros Hcur Hd Hc Hf Hch.
  assert (c ≠ d) as Hne.
  { intros ->. assert (ec = ed) as -> by congruence.
    destruct (differs_self ed) as [E1 E2]. by rewrite E1, E2 in Hch. }
  unfold planDesired. unfold bind at 1.
  rewrite (recordExists_allocated _ _ _ (mk_is_Some _ _ Hd) Hcur), Hf.
  unfold bind at 1. rewrite (targetChanged_Some _ _ _ _ _ Hd Hc).
  unfold bind at 1. rewrite (shouldUpdateTTL_Some _ _ _ _ _ Hd Hc).
  unfold inherit.
  destruct (targetDiffers ed ec) eqn:Ht, (ttlDiffers ed ec) eqn:Hl;
    try done; cbn [negb andb];
    unfold Endpoint_MergeLabels, bind, load, modify, ret;
    repeat first
      [ rewrite Hc | rewrite Hd | rewrite lookup_insert_eq
      | rewrite (lookup_insert_ne _ d c) by done
      | rewrite insert_insert_eq | progress cbn [endpoints plans] ];
    done.
Qed.

(** *** Stores that differ only in what the update branch writes *)

Lemma stable_refl σ : stable σ σ.
Proof. split; [done|]. intros p. by destruct (endpoints σ !! p). Qed.

Lemma stable_trans σ1 σ2 σ3 : stable σ1 σ2 → stable σ2 σ3 → stable σ1 σ3.
Proof.
  intros [P1 E1] [P2 E2]. split; [congruence|]. intros p.
  specialize (E1 p). specialize (E2 p).
  destruct (endpoints σ1 !! p), (endpoints σ2 !! p), (endpoints σ3 !! p);
    try done. destruct E1, E2. split; congruence.
Qed.

Lemma stable_nameOf σ σ' p : stable σ σ' → nameOf σ' p = nameOf σ p.
Proof.
  intros [_ E]. specialize (E p). unfold nameOf.
  destruct (endpoints σ !! p), (endpoints σ' !! p); try done.
  destruct E as [E _]. simpl. by rewrite E.
Qed.

Lemma stable_allocated σ σ' l : stable σ σ' → allocated σ l → allocated σ' l.
Proof.
  intros Hs Hl. unfold allocated. eapply Forall_impl; [exact Hl|]. intros p Hp.
  cbn beta. apply nameOf_is_Some. rewrite (stable_nameOf _ _ _ Hs). by apply nameOf_is_Some.
Qed.

Lemma stable_findName σ σ' n l : stable σ σ' → findName σ' n l = findName σ n l.
Proof.
  intros Hs. induction l as [|r l IH]; [done|].
  by rewrite !findName_cons, IH, (stable_nameOf _ _ _ Hs).
Qed.

Lemma stable_matchOf σ σ' l p : stable σ σ' → matchOf σ' l p = matchOf σ l p.
Proof.
  intros Hs. unfold matchOf.
  by rewrite (stable_nameOf _ _ _ Hs), (stable_findName _ _ _ _ Hs).
Qed.

Lemma stable_inherit σ d ed ec :
  endpoints σ !! d = Some ed →
  stable σ (mkStore (<[d := inherit ed ec]> (endpoints σ)) (plans σ)).
Proof.
  intros Hd. split; [done|]. intros p. cbn [endpoints].
  destruct (decide (p = d)) as [->|Hne].
  - by rewrite Hd, lookup_insert_eq.
  - rewrite lookup_insert_ne by done. by destruct (endpoints σ !! p).
Qed.

(** *** The loops *)

Lemma forRange_app {A S} (body : S → A → M S) (l1 l2 : list A) (s : S) σ :
  forRange body (l1 ++ l2) s σ = bind (forRange body l1 s) (forRange body l2) σ.
Proof.
  revert s σ. induction l1 as [|x l1 IH]; intros s σ; [done|].
  cbn [app forRange]. unfold bind in *.
  destruct (body s x σ) as [[s' σ']|]; [|done]. by rewrite IH.
Qed.

Lemma matchOf_allocated σ cur d c :
  allocated σ cur → matchOf σ cur d = Some c →
  c ∈ cur ∧ nameOf σ c = nameOf σ d ∧ is_Some (endpoints σ !! c).
Proof.
  intros Hcur [Hin Hn]%findName_elem. split_and!; [done..|].
  unfold allocated in Hcur. rewrite Forall_forall in Hcur. auto.
Qed.

(** The first loop: what it appends, and what it writes. *)
Lemma forDesired_spec cur l : ∀ ch σ,
  allocated σ cur → allocated σ l →
  ∃ ch' σ' olds news,
    forRange (planDesired cur) l ch σ = Some (ch', σ') ∧
    stable σ σ' ∧
    Create ch' = Create ch ++ filter (λ d, matchOf σ cur d = None) l ∧
    Delete ch' = Delete ch ∧
    UpdateOld ch' = UpdateOld ch ++ olds ∧
    UpdateNew ch' = UpdateNew ch ++ news ∧
    Forall2 (λ o n, n ∈ l ∧ matchOf σ cur n = Some o) olds news ∧
    (∀ p, p ∉ news → endpoints σ' !! p = endpoints σ !! p).
Proof.
  induction l as [|d l IH]; intros ch σ Hcur Hl.
  { exists ch, σ, [], []. rewrite !app_nil_r.
    split_and!; auto using stable_refl. }
  apply Forall_cons in Hl as [[ed Hd] Hl]. cbn [forRange]. unfold bind.
  destruct (matchOf σ cur d) as [c|] eqn:Hm.
  - destruct (matchOf_allocated _ _ _ _ Hcur Hm) as (Hin & Hn & [ec Hc]).
    destruct (targetDiffers ed ec || ttlDiffers ed ec) eqn:Hch.
    + rewrite (planDesired_update _ _ _ _ _ _ _ Hcur Hd Hc Hm Hch).
      set (σ1 := mkStore _ _).
      assert (stable σ σ1) as Hs by by apply stable_inherit.
      destruct (IH (appendUpdateNew (appendUpdateOld ch c) d) σ1)
        as (ch' & σ' & olds & news & -> & Hs' & HC & HD & HO & HN & HF & Hfr);
        eauto using stable_allocated.
      exists ch', σ', (c :: olds), (d :: news).
      split_and!; [done|by eapply stable_trans|..].
      * rewrite filter_cons_False by (rewrite Hm; done).
        rewrite HC. cbn [Create appendUpdateNew appendUpdateOld].
        apply (f_equal (app _)), list_filter_iff. intros x. by rewrite (stable_matchOf _ _ _ _ Hs).
      * by rewrite HD.
      * rewrite HO. cbn. by rewrite <-app_assoc.
      * rewrite HN. cbn. by rewrite <-app_assoc.
      * constructor; [split; [left|done]|].
        eapply Forall2_impl; [done|]. intros o n [? ?].
        split; [by right|]. by rewrite <-(stable_matchOf _ _ _ _ Hs).
      * intros p [Hp1 Hp2]%not_elem_of_cons. rewrite (Hfr p Hp2).
        subst σ1. cbn [endpoints]. by rewrite lookup_insert_ne.
    + apply orb_false_iff in Hch as [Ht Hl'].
      rewrite (planDesired_skip _ _ _ _ _ _ _ Hcur Hd Hc Hm Ht Hl').
      destruct (IH ch σ) as (ch' & σ' & olds & news & -> & Hs' & HC & HD & HO & HN & HF & Hfr);
        auto.
      exists ch', σ', olds, news. split_and!; try done.
      * by rewrite filter_cons_False by (rewrite Hm; done).
      * eapply Forall2_impl; [done|]. intros o n [? ?]. split; [by right|done].
  - rewrite (planDesired_create _ _ _ _ (mk_is_Some _ _ Hd) Hcur Hm).
    destruct (IH (appendCreate ch d) σ)
      as (ch' & σ' & olds & news & -> & Hs' & HC & HD & HO & HN & HF & Hfr); auto.
    exists ch', σ', olds, news. split_and!; try done.
    + rewrite HC. cbn [Create appendCreate].
      rewrite filter_cons_True by done. by rewrite <-app_assoc.
    + eapply Forall2_impl; [done|]. intros o n [? ?]. split; [by right|done].
Qed.

(** The second loop only reads the store. *)
Lemma planCurrent_Some σ des ch c :
  is_Some (endpoints σ !! c) → allocated σ des →
  planCurrent des ch c σ =
    Some (if decide (matchOf σ des c = None) then appendDelete ch c else ch, σ).
Proof.
  intros Hc Hdes. unfold planCurrent, bind.
  rewrite (recordExists_allocated _ _ _ Hc Hdes). fold (matchOf σ des c).
  by destruct (matchOf σ des c).
Qed.

Lemma forCurrent_spec des l : ∀ ch σ,
  allocated σ des → allocated σ l →
  forRange (planCurrent des) l ch σ =
    Some (mkChanges (Create ch) (UpdateOld ch) (UpdateNew ch)
            (Delete ch ++ filter (λ c, matchOf σ des c = None) l), σ).
Proof.
  induction l as [|c l IH]; intros ch σ Hdes Hl.
  { cbn. rewrite app_nil_r. by destruct ch. }
  apply Forall_cons in Hl as [Hc Hl]. cbn [forRange]. unfold bind.
  rewrite (planCurrent_Some _ _ _ _ Hc Hdes), IH by done.
  case_decide as Hm.
  - rewrite filter_cons_True by done.
    cbn [Create UpdateOld UpdateNew Delete appendDelete]. by rewrite <-app_assoc.
  - by rewrite filter_cons_False.
Qed.

Lemma diff_spec σ pl :
  allocated σ (Desired pl) → allocated σ (Current pl) →
  ∃ cs σ1,
    diff pl σ = Some (cs, σ1) ∧
    stable σ σ1 ∧
    Create cs = filter (λ d, matchOf σ (Current pl) d = None) (Desired pl) ∧
    Delete cs = filter (λ c, matchOf σ (Desired pl) c = None) (Current pl) ∧
    Forall2 (λ o n, n ∈ Desired pl ∧ matchOf σ (Current pl) n = Some o)
      (UpdateOld cs) (UpdateNew cs) ∧
    (∀ r, r ∉ UpdateNew cs → endpoints σ1 !! r = endpoints σ !! r).
Proof.
  intros Hdes Hcur.
  destruct (forDesired_spec (Current pl) (Desired pl) emptyChanges σ Hcur Hdes)
    as (ch & σ1 & olds & news & E & Hs & HC & HD & HO & HN & HF & Hfr).
  cbn in HC, HD, HO, HN.
  eexists _, σ1. unfold diff, bind. rewrite E.
  rewrite forCurrent_spec by eauto using stable_allocated.
  rewrite HC, HD, HO, HN. cbn [Create Delete UpdateOld UpdateNew app].
  split_and!; try done.
  apply list_filter_iff. intros c. by rewrite (stable_matchOf _ _ _ _ Hs).
Qed.

(** [Calculate] in one piece: the diff, then the policies, then the new plan. *)
Lemma Calculate_spec σ p pl :
  planAt σ p pl →
  ∃ cs σ1 q,
    diff pl σ = Some (cs, σ1) ∧
    stable σ σ1 ∧
    plans σ !! q = None ∧
    Calculate p σ =
      Some (q, mkStore (endpoints σ1)
                 (<[q := mkPlan (Current pl) (Desired pl) []
                           (Some (applyPolicies (Policies pl) cs))]> (plans σ))) ∧
    Create cs = filter (λ d, matchOf σ (Current pl) d = None) (Desired pl) ∧
    Delete cs = filter (λ c, matchOf σ (Desired pl) c = None) (Current pl) ∧
    Forall2 (λ o n, n ∈ Desired pl ∧ matchOf σ (Current pl) n = Some o)
      (UpdateOld cs) (UpdateNew cs) ∧
    (∀ r, r ∉ UpdateNew cs → endpoints σ1 !! r = endpoints σ !! r).
Proof.
  intros (Hp & Hdes & Hcur).
  destruct (diff_spec σ pl Hdes Hcur) as (cs & σ1 & E & Hs & HC & HD & HU & Hfr).
  exists cs, σ1, (fresh (dom (plans σ))).
  split_and!; try done.
  - apply not_elem_of_dom, is_fresh.
  - unfold Calculate, bind, loadPlan, newPlan. rewrite Hp, E.
    destruct Hs as [-> _]. done.
Qed.

Lemma Calculated_intro p σ q (es : gmap ptr Endpoint) (pls : gmap ptr Plan) pl' cs :
  Calculate p σ = Some (q, mkStore es (<[q := pl']> pls)) →
  PlanChanges pl' = Some cs →
  Calculated p σ cs (mkStore es (<[q := pl']> pls)).
Proof.
  intros E Hcs. exists q, pl'. split_and!; [done| |done].
  cbn. by rewrite lookup_insert_eq.
Qed.

Lemma nameOf_endpoints σ σ' r :
  endpoints σ' = endpoints σ → nameOf σ' r = nameOf σ r.
Proof. intros E. unfold nameOf. by rewrite E. Qed.

Lemma hasName_ext σ σ' n l :
  (∀ r, nameOf σ' r = nameOf σ r) → hasName σ' n l ↔ hasName σ n l.
Proof.
  intros E. unfold hasName. split; intros (r & ? & ?); exists r; by rewrite E in *.
Qed.

Lemma countName_ext σ σ' n l :
  (∀ r, nameOf σ' r = nameOf σ r) → countName σ' n l = countName σ n l.
Proof.
  intros E. unfold countName. f_equal. apply list_filter_iff.
  intros r. by rewrite E.
Qed.

Lemma matchOf_None σ l r :
  matchOf σ l r = None ↔ ∀ x, x ∈ l → nameOf σ x ≠ nameOf σ r.
Proof. apply findName_None. Qed.

Lemma matchOf_None_hasName σ l r n :
  nameOf σ r = Some n → matchOf σ l r = None ↔ ¬ hasName σ n l.
Proof.
  intros Hn. rewrite matchOf_None, Hn. unfold hasName. split.
  - intros Hl (x & Hx & Hxn). by apply (Hl x).
  - intros Hl x Hx Hxn. apply Hl. by exists x.
Qed.

(** *** Filtering twice *)

Lemma filter_filter_keep {A} (P Q : A → Prop)
    `{∀ x, Decision (P x)} `{∀ x, Decision (Q x)} (l : list A) :
  (∀ x, x ∈ l → Q x → P x) → filter Q (filter P l) = filter Q l.
Proof.
  induction l as [|x l IH]; intros HPQ; [done|].
  assert (filter Q (filter P l) = filter Q l) as IH'.
  { apply IH. intros y ?. apply HPQ. by right. }
  destruct (decide (Q x)) as [HQ|HQ].
  - rewrite (filter_cons_True P) by (apply HPQ; [left|done]).
    by rewrite !filter_cons_True, IH' by done.
  - rewrite (filter_cons_False Q x l) by done.
    destruct (decide (P x)).
    + rewrite (filter_cons_True P) by done. by rewrite filter_cons_False.
    + by rewrite (filter_cons_False P).
Qed.

Lemma findName_ext_in σ σ2 n l :
  (∀ r, r ∈ l → nameOf σ2 r = nameOf σ r) → findName σ2 n l = findName σ n l.
Proof.
  induction l as [|x l IH]; intros E; [done|].
  rewrite !findName_cons, IH, (E x) by (try intros r ?; try apply E; by constructor).
  done.
Qed.

(** ** The lookup of the matching record *)

(** C4. The lookup of the current record that matches a desired record
    compares names only: it returns the first record of the list, in list
    order, whose name is the needle's, reports no match exactly when no
    record has that name, leaves the store alone, and gives the same answer
    for any needle and any contents of the records (types, targets and the
    rest) as long as the names are the same. *)
Theorem recordExists_by_name σ needle haystack :
  is_Some (endpoints σ !! needle) → allocated σ haystack →
  ∃ found,
    recordExists needle haystack σ = Some (found, σ) ∧
    (∀ r, found = Some r →
       ∃ i, haystack !! i = Some r ∧ nameOf σ r = nameOf σ needle ∧
            ∀ j x, haystack !! j = Some x → j < i → nameOf σ x ≠ nameOf σ needle) ∧
    (found = None ↔ ∀ r, r ∈ haystack → nameOf σ r ≠ nameOf σ needle) ∧
    (∀ σ2 needle2,
       nameOf σ2 needle2 = nameOf σ needle →
       (∀ r, r ∈ haystack → nameOf σ2 r = nameOf σ r) →
       recordExists needle2 haystack σ2 = Some (found, σ2)).
Proof.
  intros Hn Hl. exists (findName σ (nameOf σ needle) haystack).
  split_and!.
  - by apply recordExists_allocated.
  - intros r. apply findName_Some.
  - apply findName_None.
  - intros σ2 needle2 En El.
    rewrite recordExists_allocated.
    + by rewrite En, (findName_ext_in σ σ2).
    + apply nameOf_is_Some. rewrite En. by apply nameOf_is_Some.
    + unfold allocated in *. rewrite Forall_forall in *. intros r Hr.
      apply nameOf_is_Some. rewrite El by done. apply nameOf_is_Some. auto.
Qed.

(** ** The policies *)

Lemma applyPolicies_foldl policies cs :
  applyPolicies policies cs = foldl (λ acc pol, Apply pol acc) cs policies.
Proof. revert cs. induction policies as [|pol rest IH]; intros cs; [done|]. apply IH. Qed.

(** C5. [Calculate] diffs the two lists and then runs the change set
    through the policies from first to last, each policy taking what the one
    before returned; what comes out of the last one is the change set of the
    plan that is returned. *)
Theorem Calculate_policies σ p pl :
  planAt σ p pl →
  ∃ cs σ1 σ',
    diff pl σ = Some (cs, σ1) ∧
    Calculated p σ (foldl (λ acc pol, Apply pol acc) cs (Policies pl)) σ' ∧
    (∀ pol1 pol2 pol3, Policies pl = [pol1; pol2; pol3] →
       Calculated p σ (Apply pol3 (Apply pol2 (Apply pol1 cs))) σ').
Proof.
  intros Hp.
  destruct (Calculate_spec σ p pl Hp) as (cs & σ1 & q & E & _ & _ & EC & _).
  exists cs, σ1. eexists. split; [done|].
  assert (Calculated p σ (foldl (λ acc pol, Apply pol acc) cs (Policies pl))
            (mkStore (endpoints σ1)
               (<[q := mkPlan (Current pl) (Desired pl) []
                         (Some (applyPolicies (Policies pl) cs))]> (plans σ)))) as HC.
  { eapply Calculated_intro; [exact EC|].
    rewrite <-applyPolicies_foldl. reflexivity. }
  split; [exact HC|]. intros pol1 pol2 pol3 E3.
  assert (foldl (λ acc pol, Apply pol acc) cs (Policies pl)
          = Apply pol3 (Apply pol2 (Apply pol1 cs))) as <- by by rewrite E3.
  exact HC.
Qed.

(** ** The change set without policies *)

Lemma Calculate_nopolicy σ p pl :
  planAt σ p pl → Policies pl = [] →
  ∃ cs σ1 σ',
    diff pl σ = Some (cs, σ1) ∧
    Calculated p σ cs σ' ∧
    endpoints σ' = endpoints σ1 ∧
    (∀ r, nameOf σ' r = nameOf σ r) ∧
    Create cs = filter (λ d, matchOf σ (Current pl) d = None) (Desired pl) ∧
    Delete cs = filter (λ c, matchOf σ (Desired pl) c = None) (Current pl) ∧
    Forall2 (λ o n, n ∈ Desired pl ∧ matchOf σ (Current pl) n = Some o)
      (UpdateOld cs) (UpdateNew cs) ∧
    (∀ r, r ∉ UpdateNew cs → endpoints σ' !! r = endpoints σ !! r).
Proof.
  intros Hp Hpol.
  destruct (Calculate_spec σ p pl Hp)
    as (cs & σ1 & q & E & Hs & Hq & EC & HC & HD & HU & Hfr).
  rewrite Hpol in EC. cbn [applyPolicies] in EC.
  exists cs, σ1. eexists. split; [done|].
  split; [by eapply Calculated_intro|].
  split_and!; try done.
  intros r. rewrite <-(stable_nameOf _ _ _ Hs). by apply nameOf_endpoints.
Qed.

Section names.
Variables (σ : Store) (des cur : list ptr) (cs : Changes).
Hypothesis Hcur : allocated σ cur.
Hypothesis HC : Create cs = filter (λ d, matchOf σ cur d = None) des.
Hypothesis HD : Delete cs = filter (λ c, matchOf σ des c = None) cur.
Hypothesis HU : Forall2 (λ o n, n ∈ des ∧ matchOf σ cur n = Some o)
                  (UpdateOld cs) (UpdateNew cs).

Lemma Create_names n : hasName σ n (Create cs) → hasName σ n des ∧ ¬ hasName σ n cur.
Proof.
  intros (r & Hr & Hn). rewrite HC in Hr.
  apply list_elem_of_filter in Hr as [Hm Hr]. split; [by exists r|].
  by apply (matchOf_None_hasName _ _ r).
Qed.

Lemma Delete_names n : hasName σ n (Delete cs) → hasName σ n cur ∧ ¬ hasName σ n des.
Proof.
  intros (r & Hr & Hn). rewrite HD in Hr.
  apply list_elem_of_filter in Hr as [Hm Hr]. split; [by exists r|].
  by apply (matchOf_None_hasName _ _ r).
Qed.

Lemma UpdateNew_matched r :
  r ∈ UpdateNew cs → r ∈ des ∧ ∃ o, o ∈ UpdateOld cs ∧ matchOf σ cur r = Some o.
Proof.
  intros [i Hi]%list_elem_of_lookup_1.
  destruct (Forall2_lookup_r _ _ _ _ _ HU Hi) as (o & Ho & Hin & Hm).
  split; [done|]. exists o. split; [|done]. by eapply list_elem_of_lookup_2.
Qed.

Lemma UpdateOld_matched o :
  o ∈ UpdateOld cs → ∃ r, r ∈ UpdateNew cs ∧ r ∈ des ∧ matchOf σ cur r = Some o.
Proof.
  intros [i Hi]%list_elem_of_lookup_1.
  destruct (Forall2_lookup_l _ _ _ _ _ HU Hi) as (r & Hr & Hin & Hm).
  exists r. split_and!; [|done..]. by eapply list_elem_of_lookup_2.
Qed.

Lemma Update_names n :
  hasName σ n (UpdateOld cs) ∨ hasName σ n (UpdateNew cs) →
  hasName σ n cur ∧ hasName σ n des.
Proof.
  intros [(o & Ho & Hn)|(r & Hr & Hn)].
  - destruct (UpdateOld_matched o Ho) as (r & _ & Hin & Hm).
    destruct (matchOf_allocated _ _ _ _ Hcur Hm) as (Hoc & Hon & _).
    split; [by exists o|]. exists r. split; [done|]. by rewrite <-Hon.
  - destruct (UpdateNew_matched r Hr) as (Hin & o & _ & Hm).
    destruct (matchOf_allocated _ _ _ _ Hcur Hm) as (Hoc & Hon & _).
    split; [|by exists r]. exists o. split; [done|]. by rewrite Hon.
Qed.

Lemma Create_not_UpdateNew r : r ∈ Create cs → r ∉ UpdateNew cs.
Proof.
  rewrite HC. intros [Hm _]%list_elem_of_filter Hr.
  destruct (UpdateNew_matched r Hr) as (_ & o & _ & Hm'). congruence.
Qed.

Lemma Delete_not_UpdateNew r : r ∈ Delete cs → r ∉ UpdateNew cs.
Proof.
  rewrite HD. intros [Hm _]%list_elem_of_filter Hr.
  destruct (UpdateNew_matched r Hr) as (Hin & _).
  by apply (proj1 (matchOf_None _ _ _) Hm r).
Qed.
End names.

(** C6. Without policies, [UpdateOld] and [UpdateNew] of the change set
    have the same length, and at every index the two records carry the same
    DNS name. *)
Theorem Calculate_update_pairs σ p pl :
  planAt σ p pl → Policies pl = [] →
  ∃ cs σ',
    Calculated p σ cs σ' ∧
    length (UpdateOld cs) = length (UpdateNew cs) ∧
    ∀ i o n, UpdateOld cs !! i = Some o → UpdateNew cs !! i = Some n →
      ∃ name, nameOf σ' o = Some name ∧ nameOf σ' n = Some name.
Proof.
  intros Hp Hpol.
  destruct (Calculate_nopolicy σ p pl Hp Hpol)
    as (cs & σ1 & σ' & _ & HCal & _ & Hn & _ & _ & HU & _).
  destruct Hp as (_ & _ & Hcur).
  exists cs, σ'. split_and!; [done|by eapply Forall2_length|].
  intros i o n Ho Hnw.
  destruct (Forall2_lookup_lr _ _ _ _ _ _ HU Ho Hnw) as [_ Hm].
  destruct (matchOf_allocated _ _ _ _ Hcur Hm) as (_ & Hon & [name Hname]%nameOf_is_Some).
  exists name. rewrite !Hn. split; congruence.
Qed.

(** C10. [Calculate] writes to no record but the desired records of the
    update branch: a record put in [Create] is a pointer of the desired list
    and a record put in [Delete] a pointer of the current list, both with
    every field as it was; the plan returned sits at a new location, holds the
    receiver's [Current] and [Desired] slices, no policies and the change set,
    and the receiver (its [Changes] field included) is as it was. *)
Theorem Calculate_frame σ p pl :
  planAt σ p pl →
  ∃ cs σ1 q σ',
    diff pl σ = Some (cs, σ1) ∧
    Calculate p σ = Some (q, σ') ∧
    (∀ r, endpoints σ' !! r ≠ endpoints σ !! r → r ∈ UpdateNew cs ∧ r ∈ Desired pl) ∧
    (∀ r, r ∈ Create cs → r ∈ Desired pl ∧ endpoints σ' !! r = endpoints σ !! r) ∧
    (∀ r, r ∈ Delete cs → r ∈ Current pl ∧ endpoints σ' !! r = endpoints σ !! r) ∧
    plans σ' !! q =
      Some (mkPlan (Current pl) (Desired pl) []
              (Some (applyPolicies (Policies pl) cs))) ∧
    q ≠ p ∧
    (∀ p', p' ≠ q → plans σ' !! p' = plans σ !! p') ∧
    plans σ' !! p = Some pl.
Proof.
  intros Hp.
  destruct (Calculate_spec σ p pl Hp)
    as (cs & σ1 & q & E & Hs & Hq & EC & HC & HD & HU & Hfr).
  destruct Hp as (Hpl & Hdes & Hcur).
  assert (q ≠ p) as Hqp by congruence.
  exists cs, σ1, q. eexists. split; [done|]. split; [exact EC|].
  cbn [endpoints plans]. split_and!.
  - intros r Hr. destruct (decide (r ∈ UpdateNew cs)) as [Hin|Hout].
    + split; [done|]. by destruct (UpdateNew_matched _ _ _ _ HU r Hin).
    + by destruct Hr; apply Hfr.
  - intros r Hr. split.
    + rewrite HC in Hr. by apply list_elem_of_filter in Hr as [_ ?].
    + apply Hfr. by eapply Create_not_UpdateNew.
  - intros r Hr. split.
    + rewrite HD in Hr. by apply list_elem_of_filter in Hr as [_ ?].
    + apply Hfr. by eapply Delete_not_UpdateNew.
  - by rewrite lookup_insert_eq.
  - done.
  - intros p' Hp'. by rewrite lookup_insert_ne.
  - by rewrite lookup_insert_ne.
Qed.

Lemma filter_none {A} (P : A → Prop) `{∀ x, Decision (P x)} (l : list A) :
  (∀ x, x ∈ l → ¬ P x) → filter P l = [].
Proof.
  induction l as [|x l IH]; intros HP; [done|].
  rewrite filter_cons_False by (apply HP; left).
  apply IH. intros y ?. apply HP. by right.
Qed.

Lemma countPtr_filter (P : ptr → Prop) `{∀ x, Decision (P x)} r l :
  P r → countPtr r (filter P l) = countPtr r l.
Proof.
  intros HP. unfold countPtr. f_equal. apply filter_filter_keep.
  by intros x _ ->.
Qed.

Lemma countName_filter σ (P : ptr → Prop) `{∀ x, Decision (P x)} n l :
  (∀ x, nameOf σ x = Some n → P x) →
  countName σ n (filter P l) = countName σ n l.
Proof.
  intros HP. unfold countName. f_equal. apply filter_filter_keep. auto.
Qed.

(** C1, as the code has it.  Without policies: a record whose name is only
    in the current list is in [Delete] as many times as it is in the current
    list (so once when it is listed once), and so is its name; the same for
    [Create] and the desired list; and no name is in two of [Create],
    [Delete] and the update lists. *)
Theorem Calculate_partition σ p pl :
  planAt σ p pl → Policies pl = [] →
  ∃ cs σ',
    Calculated p σ cs σ' ∧
    (∀ r, nameOf σ' r = nameOf σ r) ∧
    (∀ r n, nameOf σ r = Some n → ¬ hasName σ n (Desired pl) →
       countPtr r (Delete cs) = countPtr r (Current pl)) ∧
    (∀ r n, nameOf σ r = Some n → ¬ hasName σ n (Current pl) →
       countPtr r (Create cs) = countPtr r (Desired pl)) ∧
    (∀ n, ¬ hasName σ n (Desired pl) →
       countName σ' n (Delete cs) = countName σ n (Current pl)) ∧
    (∀ n, ¬ hasName σ n (Current pl) →
       countName σ' n (Create cs) = countName σ n (Desired pl)) ∧
    (∀ n, ¬ (hasName σ' n (Create cs) ∧ hasName σ' n (Delete cs))) ∧
    (∀ n, hasName σ' n (UpdateOld cs) ∨ hasName σ' n (UpdateNew cs) →
       ¬ hasName σ' n (Create cs) ∧ ¬ hasName σ' n (Delete cs)).
Proof.
  intros Hp Hpol.
  destruct (Calculate_nopolicy σ p pl Hp Hpol)
    as (cs & σ1 & σ' & _ & HCal & _ & Hn & HC & HD & HU & _).
  destruct Hp as (_ & Hdes & Hcur).
  exists cs, σ'. split_and!; [done..| | | | | |].
  - intros r n Hr Hno. rewrite HD. apply countPtr_filter.
    by apply (matchOf_None_hasName _ _ _ n).
  - intros r n Hr Hno. rewrite HC. apply countPtr_filter.
    by apply (matchOf_None_hasName _ _ _ n).
  - intros n Hno. rewrite (countName_ext _ _ _ _ Hn), HD.
    apply countName_filter. intros x Hx. by apply (matchOf_None_hasName _ _ _ n).
  - intros n Hno. rewrite (countName_ext _ _ _ _ Hn), HC.
    apply countName_filter. intros x Hx. by apply (matchOf_None_hasName _ _ _ n).
  - intros n. rewrite !(hasName_ext _ _ _ _ Hn). intros [H1 H2].
    apply (Create_names _ _ _ _ HC) in H1 as [? ?].
    apply (Delete_names _ _ _ _ HD) in H2 as [? ?]. done.
  - intros n. rewrite !(hasName_ext _ _ _ _ Hn). intros HUp.
    apply (Update_names _ _ _ _ Hcur HU) in HUp as [? ?]. split.
    + intros [? ?]%(Create_names _ _ _ _ HC). done.
    + intros [? ?]%(Delete_names _ _ _ _ HD). done.
Qed.

(** ** Nothing to do *)

Lemma forDesired_noop σ cur l ch :
  allocated σ cur → allocated σ l →
  (∀ d c ed ec, d ∈ l → c ∈ cur →
     endpoints σ !! d = Some ed → endpoints σ !! c = Some ec →
     DNSName ed = DNSName ec →
     Target ed = Target ec ∧ RecordTTL ed = RecordTTL ec) →
  (∀ d, d ∈ l → matchOf σ cur d ≠ None) →
  forRange (planDesired cur) l ch σ = Some (ch, σ).
Proof.
  intros Hcur Hl Hsame Hm. induction Hl as [|d l [ed Hd] Hl IH]; [done|].
  cbn [forRange]. unfold bind.
  destruct (matchOf σ cur d) as [c|] eqn:E; [|by destruct (Hm d); [left|]].
  destruct (matchOf_allocated _ _ _ _ Hcur E) as (Hin & Hn & [ec Hc]).
  rewrite (nameOf_Some _ _ _ Hd), (nameOf_Some _ _ _ Hc) in Hn.
  destruct (Hsame d c ed ec) as [Ht Httl]; [by left|done..|congruence|].
  rewrite (planDesired_skip _ _ _ _ _ _ _ Hcur Hd Hc E).
  - apply IH.
    + intros ?????. apply Hsame. by right.
    + intros ??. apply Hm. by right.
  - unfold targetDiffers. by rewrite bool_decide_eq_true_2.
  - unfold ttlDiffers. rewrite (bool_decide_eq_true_2 _ Httl). apply andb_false_r.
Qed.

(** C7. Without policies, when the desired and the current list carry the
    same names and any desired and current record of the same name have the
    same target and the same TTL, the four lists of the change set are empty
    (and no record is written). *)
Theorem Calculate_idempotent σ p pl :
  planAt σ p pl → Policies pl = [] →
  (∀ n, hasName σ n (Desired pl) ↔ hasName σ n (Current pl)) →
  (∀ d c ed ec, d ∈ Desired pl → c ∈ Current pl →
     endpoints σ !! d = Some ed → endpoints σ !! c = Some ec →
     DNSName ed = DNSName ec →
     Target ed = Target ec ∧ RecordTTL ed = RecordTTL ec) →
  ∃ cs σ',
    Calculated p σ cs σ' ∧
    Create cs = [] ∧ UpdateOld cs = [] ∧ UpdateNew cs = [] ∧ Delete cs = [] ∧
    endpoints σ' = endpoints σ.
Proof.
  intros Hp Hpol Hnames Hsame.
  destruct (Calculate_nopolicy σ p pl Hp Hpol)
    as (cs & σ1 & σ' & E & HCal & Hσ' & _ & HC & HD & _ & _).
  destruct Hp as (_ & Hdes & Hcur).
  assert (∀ l1 l2 r, (∀ n, hasName σ n l1 → hasName σ n l2) → allocated σ l1 →
            r ∈ l1 → matchOf σ l2 r ≠ None) as Hmatch.
  { intros l1 l2 r Hsub Hl1 Hr Hm.
    unfold allocated in Hl1. rewrite Forall_forall in Hl1.
    destruct (Hl1 r Hr) as [e He].
    apply (matchOf_None_hasName _ _ _ (DNSName e)) in Hm; [|by apply nameOf_Some].
    apply Hm, Hsub. exists r. split; [done|]. by apply nameOf_Some. }
  unfold diff, bind in E.
  rewrite (forDesired_noop _ _ _ _ Hcur Hdes Hsame) in E.
  2:{ intros d. apply (Hmatch (Desired pl)); [|done]. intros n. apply Hnames. }
  rewrite (forCurrent_spec _ _ _ _ Hdes Hcur) in E.
  injection E as <- <-. exists emptyChanges, σ'.
  cbn [Create Delete emptyChanges app] in *.
  split_and!; [|done..].
  assert (mkChanges [] [] []
            (filter (λ c, matchOf σ (Desired pl) c = None) (Current pl))
          = emptyChanges) as <-; [|done].
  unfold emptyChanges. f_equal. apply filter_none.
  intros c. apply (Hmatch (Current pl)); [|done]. intros n. apply Hnames.
Qed.

(** ** One desired record of a name *)

Lemma differs_iff (ed ec : Endpoint) :
  targetDiffers ed ec || ttlDiffers ed ec = true ↔
  Target ed ≠ Target ec ∨
  (IsConfigured (RecordTTL ed) = true ∧ RecordTTL ed ≠ RecordTTL ec).
Proof.
  unfold targetDiffers, ttlDiffers.
  rewrite orb_true_iff, andb_true_iff, !negb_true_iff, !bool_decide_eq_false.
  done.
Qed.

Lemma countName_app σ n l1 l2 :
  countName σ n (l1 ++ l2) = countName σ n l1 + countName σ n l2.
Proof. unfold countName. by rewrite filter_app, length_app. Qed.

Lemma countName_cons σ n r l :
  countName σ n (r :: l) =
    (if decide (nameOf σ r = Some n) then 1 else 0) + countName σ n l.
Proof.
  unfold countName. case_decide.
  - by rewrite filter_cons_True.
  - by rewrite filter_cons_False.
Qed.

Lemma countName_0 σ n l :
  countName σ n l = 0 ↔ ∀ r, r ∈ l → nameOf σ r ≠ Some n.
Proof.
  unfold countName. split.
  - intros E%nil_length_inv r Hr Hn.
    by apply (filter_nil_not_elem_of _ _ r E Hn).
  - intros Hl. by rewrite filter_none.
Qed.

Lemma countName_0_hasName σ n l : countName σ n l = 0 ↔ ¬ hasName σ n l.
Proof.
  rewrite countName_0. unfold hasName. split.
  - intros Hl (r & ? & ?). by eapply Hl.
  - intros Hl r ? ?. apply Hl. by exists r.
Qed.

(** The pairs appended by the first loop carry names of the desired slice
    it ran over. *)
Lemma Forall2_matched_names σ cur l n olds news :
  allocated σ cur →
  Forall2 (λ o r, r ∈ l ∧ matchOf σ cur r = Some o) olds news →
  (∀ r, r ∈ l → nameOf σ r ≠ Some n) →
  (∀ r, r ∈ news → nameOf σ r ≠ Some n) ∧ (∀ o, o ∈ olds → nameOf σ o ≠ Some n).
Proof.
  intros Hcur HF Hl. split.
  - intros r [i Hi]%list_elem_of_lookup_1.
    destruct (Forall2_lookup_r _ _ _ _ _ HF Hi) as (o & _ & Hin & _). auto.
  - intros o [i Hi]%list_elem_of_lookup_1.
    destruct (Forall2_lookup_l _ _ _ _ _ HF Hi) as (r & _ & Hin & Hm).
    destruct (matchOf_allocated _ _ _ _ Hcur Hm) as (_ & -> & _). auto.
Qed.

Lemma diff_unique_name σ pl d c ed ec :
  allocated σ (Desired pl) → allocated σ (Current pl) →
  endpoints σ !! d = Some ed → endpoints σ !! c = Some ec →
  d ∈ Desired pl →
  countName σ (DNSName ed) (Desired pl) = 1 →
  matchOf σ (Current pl) d = Some c →
  ∃ cs σ1 o1 o2 n1 n2,
    diff pl σ = Some (cs, σ1) ∧
    length o1 = length n1 ∧
    (∀ r, r ∈ o1 ++ o2 ++ n1 ++ n2 → nameOf σ r ≠ Some (DNSName ed)) ∧
    if targetDiffers ed ec || ttlDiffers ed ec
    then UpdateOld cs = o1 ++ c :: o2 ∧ UpdateNew cs = n1 ++ d :: n2 ∧
         endpoints σ1 !! d = Some (inherit ed ec)
    else UpdateOld cs = o1 ++ o2 ∧ UpdateNew cs = n1 ++ n2 ∧
         endpoints σ1 !! d = Some ed.
Proof.
  intros Hdes Hcur Hd Hc Hin Hcount Hm.
  set (n := DNSName ed) in *.
  assert (nameOf σ d = Some n) as Hdn by by apply nameOf_Some.
  destruct (list_elem_of_split _ _ Hin) as (l1 & l2 & Hl).
  rewrite Hl in Hcount, Hdes. rewrite countName_app, countName_cons in Hcount.
  rewrite decide_True in Hcount by done.
  assert (countName σ n l1 = 0) as H1 by lia.
  assert (countName σ n l2 = 0) as H2 by lia.
  rewrite countName_0 in H1, H2.
  apply Forall_app in Hdes as [Hl1 Hl2']. apply Forall_cons in Hl2' as [_ Hl2].
  destruct (matchOf_allocated _ _ _ _ Hcur Hm) as (_ & Hcn & _).
  rewrite Hdn in Hcn.
  (* the records before [d] *)
  destruct (forDesired_spec (Current pl) l1 emptyChanges σ Hcur Hl1)
    as (ch1 & σ1 & o1 & n1 & E1 & Hs1 & _ & _ & HO1 & HN1 & HF1 & Hfr1).
  destruct (Forall2_matched_names _ _ _ n _ _ Hcur HF1 H1) as [Hn1 Ho1].
  assert (endpoints σ1 !! d = Some ed) as Hd1.
  { rewrite Hfr1; [done|]. intros ?%Hn1. done. }
  assert (endpoints σ1 !! c = Some ec) as Hc1.
  { rewrite Hfr1; [done|]. intros ?%Hn1. done. }
  assert (allocated σ1 (Current pl)) as Hcur1 by eauto using stable_allocated.
  assert (matchOf σ1 (Current pl) d = Some c) as Hm1
    by by rewrite (stable_matchOf _ _ _ _ Hs1).
  (* the record [d], then the records after it *)
  assert (∃ ch2 σ2,
    planDesired (Current pl) ch1 d σ1 = Some (ch2, σ2) ∧ stable σ1 σ2 ∧
    if targetDiffers ed ec || ttlDiffers ed ec
    then UpdateOld ch2 = o1 ++ [c] ∧ UpdateNew ch2 = n1 ++ [d] ∧
         endpoints σ2 !! d = Some (inherit ed ec)
    else UpdateOld ch2 = o1 ∧ UpdateNew ch2 = n1 ∧ endpoints σ2 !! d = Some ed)
    as (ch2 & σ2 & E2 & Hs2 & Hch2).
  { destruct (targetDiffers ed ec || ttlDiffers ed ec) eqn:Hch.
    - eexists _, _.
      split; [by apply (planDesired_update σ1 (Current pl) ch1 d c ed ec)|].
      split; [by apply stable_inherit|]. cbn. rewrite HO1, HN1.
      by rewrite lookup_insert_eq.
    - apply orb_false_iff in Hch as [? ?]. exists ch1, σ1.
      split; [by apply (planDesired_skip σ1 (Current pl) ch1 d c ed ec)|].
      split; [apply stable_refl|]. by rewrite HO1, HN1. }
  assert (stable σ σ2) as Hs02 by by eapply stable_trans.
  destruct (forDesired_spec (Current pl) l2 ch2 σ2)
    as (ch3 & σ3 & o2 & n2 & E3 & Hs3 & _ & _ & HO3 & HN3 & HF3 & Hfr3);
    [by eapply stable_allocated..|].
  assert (Forall2 (λ o r, r ∈ l2 ∧ matchOf σ (Current pl) r = Some o) o2 n2) as HF3'.
  { eapply Forall2_impl; [done|]. intros o r [? ?]. split; [done|].
    by rewrite <-(stable_matchOf _ _ _ _ Hs02). }
  destruct (Forall2_matched_names _ _ _ n _ _ Hcur HF3' H2) as [Hn2 Ho2].
  assert (endpoints σ3 !! d = endpoints σ2 !! d) as Hd3.
  { apply Hfr3. intros ?%Hn2. done. }
  (* the second loop *)
  eexists _, σ3, o1, o2, n1, n2. split.
  { unfold diff, bind. rewrite Hl, forRange_app. unfold bind. rewrite E1.
    cbn [forRange]. unfold bind. rewrite E2, E3.
    rewrite forCurrent_spec; [done|..];
      eapply stable_allocated; try (eapply stable_trans; [exact Hs02|exact Hs3]).
    - apply Forall_app. split; [done|]. by constructor.
    - done. }
  split; [by eapply Forall2_length|]. split.
  { intros r. rewrite !elem_of_app. intros [?|[?|[?|?]]]; auto. }
  cbn [UpdateOld UpdateNew]. rewrite HO3, HN3, Hd3.
  destruct (targetDiffers ed ec || ttlDiffers ed ec);
    destruct Hch2 as (-> & -> & ->); by rewrite <-?app_assoc.
Qed.

Lemma recordExists_matchOf σ d cur c :
  is_Some (endpoints σ !! d) → allocated σ cur →
  recordExists d cur σ = Some (Some c, σ) → matchOf σ cur d = Some c.
Proof.
  intros Hd Hcur E. rewrite recordExists_allocated in E by done.
  by injection E.
Qed.

Lemma countName_middle σ n l1 l2 r :
  (∀ x, x ∈ l1 ++ l2 → nameOf σ x ≠ Some n) → nameOf σ r = Some n →
  countName σ n (l1 ++ l2) = 0 ∧ countName σ n (l1 ++ r :: l2) = 1.
Proof.
  intros Hl Hr.
  assert (countName σ n l1 = 0) as H1.
  { apply countName_0. intros x ?. apply Hl, elem_of_app. by left. }
  assert (countName σ n l2 = 0) as H2.
  { apply countName_0. intros x ?. apply Hl, elem_of_app. by right. }
  rewrite !countName_app, countName_cons, decide_True, H1, H2 by done. done.
Qed.

(** C2, as the code has it.  Without policies, let [d] be the only desired
    record of its name and [c] the first current record of that name.  If
    the targets differ, or the TTL of [d] is configured and differs from the
    TTL of [c], the update lists hold exactly one entry of that name each, the
    pair [(c, d)] at one index; otherwise they hold none.  [Create] and
    [Delete] hold no entry of that name either way. *)
Theorem Calculate_update_iff σ p pl d c ed ec :
  planAt σ p pl → Policies pl = [] →
  endpoints σ !! d = Some ed → endpoints σ !! c = Some ec →
  d ∈ Desired pl →
  countName σ (DNSName ed) (Desired pl) = 1 →
  recordExists d (Current pl) σ = Some (Some c, σ) →
  ∃ cs σ',
    Calculated p σ cs σ' ∧
    countName σ' (DNSName ed) (Create cs) = 0 ∧
    countName σ' (DNSName ed) (Delete cs) = 0 ∧
    ((Target ed ≠ Target ec ∨
      (IsConfigured (RecordTTL ed) = true ∧ RecordTTL ed ≠ RecordTTL ec)) →
       countName σ' (DNSName ed) (UpdateOld cs) = 1 ∧
       countName σ' (DNSName ed) (UpdateNew cs) = 1 ∧
       ∃ i, UpdateOld cs !! i = Some c ∧ UpdateNew cs !! i = Some d) ∧
    (¬ (Target ed ≠ Target ec ∨
        (IsConfigured (RecordTTL ed) = true ∧ RecordTTL ed ≠ RecordTTL ec)) →
       countName σ' (DNSName ed) (UpdateOld cs) = 0 ∧
       countName σ' (DNSName ed) (UpdateNew cs) = 0).
Proof.
  intros Hp Hpol Hd Hc Hin Hcount Hrec.
  destruct (Calculate_nopolicy σ p pl Hp Hpol)
    as (cs & σ1 & σ' & E & HCal & _ & Hn & HC & HD & HU & _).
  destruct Hp as (_ & Hdes & Hcur).
  assert (matchOf σ (Current pl) d = Some c) as Hm
    by by apply recordExists_matchOf.
  destruct (diff_unique_name σ pl d c ed ec Hdes Hcur Hd Hc Hin Hcount Hm)
    as (cs' & σ1' & o1 & o2 & n1 & n2 & E' & Hlen & Hnames & Hcase).
  rewrite E in E'. injection E' as <- <-.
  set (n := DNSName ed) in *.
  assert (nameOf σ d = Some n) as Hdn by by apply nameOf_Some.
  destruct (matchOf_allocated _ _ _ _ Hcur Hm) as (Hcin & Hcn & _).
  rewrite Hdn in Hcn.
  assert (hasName σ n (Desired pl)) as Hnd by by exists d.
  assert (hasName σ n (Current pl)) as Hnc by by exists c.
  exists cs, σ'. rewrite !(countName_ext _ _ _ _ Hn).
  split_and!; [done| | | |].
  - apply countName_0_hasName. by intros [_ ?]%(Create_names _ _ _ _ HC).
  - apply countName_0_hasName. by intros [_ ?]%(Delete_names _ _ _ _ HD).
  - intros Hch%differs_iff. rewrite Hch in Hcase.
    destruct Hcase as (-> & -> & _). split_and!.
    + apply countName_middle; [|done].
      intros x Hx. apply Hnames. rewrite !elem_of_app in *. tauto.
    + apply countName_middle; [|done].
      intros x Hx. apply Hnames. rewrite !elem_of_app in *. tauto.
    + exists (length o1). split.
      * by rewrite list_lookup_middle.
      * by rewrite list_lookup_middle.
  - intros Hch. rewrite <-differs_iff in Hch. apply not_true_is_false in Hch.
    rewrite Hch in Hcase. destruct Hcase as (-> & -> & _). split_and!.
    + apply (countName_middle _ _ _ _ d); [|done].
      intros x Hx. apply Hnames. rewrite !elem_of_app in *. tauto.
    + apply (countName_middle _ _ _ _ d); [|done].
      intros x Hx. apply Hnames. rewrite !elem_of_app in *. tauto.
Qed.

(** What a caller that kept the pointer [d] reads after [Calculate]: under
    the conditions of the theorem above, the record with the inherited
    fields. *)
Lemma Calculate_update_visible σ p pl d c ed ec :
  planAt σ p pl → Policies pl = [] →
  endpoints σ !! d = Some ed → endpoints σ !! c = Some ec →
  d ∈ Desired pl →
  countName σ (DNSName ed) (Desired pl) = 1 →
  recordExists d (Current pl) σ = Some (Some c, σ) →
  targetDiffers ed ec || ttlDiffers ed ec = true →
  ∃ cs σ',
    Calculated p σ cs σ' ∧ d ∈ UpdateNew cs ∧
    endpoints σ' !! d = Some (inherit ed ec).
Proof.
  intros Hp Hpol Hd Hc Hin Hcount Hrec Hch.
  destruct (Calculate_nopolicy σ p pl Hp Hpol)
    as (cs & σ1 & σ' & E & HCal & Hσ' & _).
  destruct Hp as (_ & Hdes & Hcur).
  assert (matchOf σ (Current pl) d = Some c) as Hm
    by by apply recordExists_matchOf.
  destruct (diff_unique_name σ pl d c ed ec Hdes Hcur Hd Hc Hin Hcount Hm)
    as (cs' & σ1' & o1 & o2 & n1 & n2 & E' & _ & _ & Hcase).
  rewrite E in E'. injection E' as <- <-. rewrite Hch in Hcase.
  destruct Hcase as (_ & HN & Hd').
  exists cs, σ'. split_and!; [done| |by rewrite Hσ'].
  rewrite HN. apply elem_of_app. right. by left.
Qed.

(** ** The update branch *)

(** C3. One pass of the loop body for a desired record [d] matched with
    the current record [c], when the target or the TTL calls for an update:
    [c] goes to [UpdateOld] and the pointer [d] itself to [UpdateNew]; the
    record behind [d] now has the labels of [c] merged into its own, the
    record type of [c] if the targets differ, and the TTL of [c] unless its
    own TTL is configured and differs; name and target are as before.  The
    write is in the store, so every holder of the pointer [d] reads it; no
    other record is written. *)
Theorem planDesired_update_branch σ cur changes d c ed ec :
  allocated σ cur →
  endpoints σ !! d = Some ed → endpoints σ !! c = Some ec →
  recordExists d cur σ = Some (Some c, σ) →
  (Target ed ≠ Target ec ∨
   (IsConfigured (RecordTTL ed) = true ∧ RecordTTL ed ≠ RecordTTL ec)) →
  ∃ changes' σ' ed',
    planDesired cur changes d σ = Some (changes', σ') ∧
    UpdateOld changes' = UpdateOld changes ++ [c] ∧
    UpdateNew changes' = UpdateNew changes ++ [d] ∧
    Create changes' = Create changes ∧ Delete changes' = Delete changes ∧
    endpoints σ' !! d = Some ed' ∧
    Labels ed' = MergeLabels (Labels ed) (Labels ec) ∧
    (Target ed ≠ Target ec → RecordType ed' = RecordType ec) ∧
    (Target ed = Target ec → RecordType ed' = RecordType ed) ∧
    (IsConfigured (RecordTTL ed) = true ∧ RecordTTL ed ≠ RecordTTL ec →
       RecordTTL ed' = RecordTTL ed) ∧
    (¬ (IsConfigured (RecordTTL ed) = true ∧ RecordTTL ed ≠ RecordTTL ec) →
       RecordTTL ed' = RecordTTL ec) ∧
    DNSName ed' = DNSName ed ∧ Target ed' = Target ed ∧
    (∀ r, r ≠ d → endpoints σ' !! r = endpoints σ !! r) ∧
    plans σ' = plans σ.
Proof.
  intros Hcur Hd Hc Hrec Hch.
  assert (matchOf σ cur d = Some c) as Hm by by apply recordExists_matchOf.
  apply differs_iff in Hch.
  eexists _, _, (inherit ed ec).
  split; [by apply (planDesired_update σ cur changes d c ed ec)|].
  cbn [UpdateOld UpdateNew Create Delete appendUpdateNew appendUpdateOld
       endpoints plans inherit Labels RecordType RecordTTL DNSName Target].
  rewrite lookup_insert_eq. split_and!; try done.
  - intros Ht. unfold targetDiffers. by rewrite bool_decide_eq_false_2.
  - intros Ht. unfold targetDiffers. by rewrite bool_decide_eq_true_2.
  - intros [Hcfg Hne]. unfold ttlDiffers.
    by rewrite Hcfg, bool_decide_eq_false_2.
  - intros Hno. unfold ttlDiffers.
    destruct (IsConfigured (RecordTTL ed)); [|done].
    rewrite bool_decide_eq_true_2; [done|].
    destruct (decide (RecordTTL ed = RecordTTL ec)); [done|]. by destruct Hno.
  - intros r Hr. by rewrite lookup_insert_ne.
Qed.

End planner_facts.

(** ** More on the planner: panics, empty lists, duplicates *)

Section planner_more.
Context `{EndpointPkg}.

Abbreviation Endpoint := (Endpoint TTL).
Abbreviation Store := (Store TTL).

Notation "'let*' x := m 'in' k" := (bind m (λ x, k))
  (at level 10, x binder, k at level 200).

Implicit Types (σ : Store) (p q r d c : ptr) (l : list ptr).

(** *** What a run that returns has read *)

Lemma load_inv σ p e σ' :
  load p σ = Some (e, σ') → σ' = σ ∧ endpoints σ !! p = Some e.
Proof. unfold load. destruct (endpoints σ !! p); naive_solver. Qed.

Lemma load_None σ p : endpoints σ !! p = None → load p σ = None.
Proof. intros E. unfold load. by rewrite E. Qed.

Lemma recordExists_inv σ needle l found σ' :
  recordExists needle l σ = Some (found, σ') →
  σ' = σ ∧ found = matchOf σ l needle ∧
  (l = [] ∨ is_Some (endpoints σ !! needle)) ∧
  (∀ c, found = Some c → is_Some (endpoints σ !! c)).
Proof.
  unfold matchOf. induction l as [|r l IH]; cbn [recordExists].
  - intros [= <- <-]. split_and!; [done..|by left|done].
  - unfold bind. destruct (load r σ) as [[er σ1]|] eqn:Er; [|done].
    apply load_inv in Er as [-> Er].
    destruct (load needle σ) as [[en σ1]|] eqn:En; [|done].
    apply load_inv in En as [-> En].
    rewrite findName_cons, (nameOf_Some _ _ _ Er), (nameOf_Some _ _ _ En).
    case_bool_decide as Hn.
    + intros [= <- <-]. rewrite decide_True by by rewrite Hn.
      split_and!; [done..|by right|]. by intros c [= <-].
    + rewrite decide_False by congruence. intros E.
      destruct (IH E) as (-> & -> & _ & Hc).
      rewrite (nameOf_Some _ _ _ En) in *. split_and!; [done..|by right|done].
Qed.

(** One pass of the first loop for a desired record whose match is known. *)
Lemma planDesired_found σ cur ch d c ed ec :
  recordExists d cur σ = Some (Some c, σ) →
  endpoints σ !! d = Some ed → endpoints σ !! c = Some ec →
  planDesired cur ch d σ =
    Some (if targetDiffers ed ec || ttlDiffers ed ec
          then (appendUpdateNew (appendUpdateOld ch c) d,
                mkStore (<[d := inherit ed ec]> (endpoints σ)) (plans σ))
          else (ch, σ)).
Proof.
  intros Hrec Hd Hc.
  unfold planDesired. unfold bind at 1. rewrite Hrec.
  unfold bind at 1. rewrite (targetChanged_Some _ _ _ _ _ Hd Hc).
  unfold bind at 1. rewrite (shouldUpdateTTL_Some _ _ _ _ _ Hd Hc).
  destruct (targetDiffers ed ec || ttlDiffers ed ec) eqn:Hch.
  - assert (c ≠ d) as Hne.
    { intros ->. assert (ec = ed) as -> by congruence.
      destruct (differs_self ed) as [E1 E2]. by rewrite E1, E2 in Hch. }
    unfold inherit.
    destruct (targetDiffers ed ec) eqn:Ht, (ttlDiffers ed ec) eqn:Hl;
      try done; cbn [negb andb];
      unfold Endpoint_MergeLabels, bind, load, modify, ret;
      repeat first
        [ rewrite Hc | rewrite Hd | rewrite lookup_insert_eq
        | rewrite (lookup_insert_ne _ d c) by done
        | rewrite insert_insert_eq | progress cbn [endpoints plans] ];
      done.
  - apply orb_false_iff in Hch as [-> ->]. done.
Qed.

(** Every way one pass of the first loop can return. *)
Lemma planDesired_inv σ cur ch d ch' σ' :
  planDesired cur ch d σ = Some (ch', σ') →
  (matchOf σ cur d = None ∧ ch' = appendCreate ch d ∧ σ' = σ) ∨
  (∃ c ed ec,
     matchOf σ cur d = Some c ∧
     endpoints σ !! d = Some ed ∧ endpoints σ !! c = Some ec ∧
     (ch', σ') =
       if targetDiffers ed ec || ttlDiffers ed ec
       then (appendUpdateNew (appendUpdateOld ch c) d,
             mkStore (<[d := inherit ed ec]> (endpoints σ)) (plans σ))
       else (ch, σ)).
Proof.
  intros E.
  destruct (recordExists d cur σ) as [[found σ1]|] eqn:Hrec.
  2:{ unfold planDesired, bind in E. by rewrite Hrec in E. }
  destruct (recordExists_inv _ _ _ _ _ Hrec) as (-> & -> & Hd & Hc).
  destruct (matchOf σ cur d) as [c|] eqn:Hm.
  - right. destruct (Hc c eq_refl) as [ec Hec].
    destruct Hd as [->|[ed Hed]]; [done|].
    rewrite (planDesired_found _ _ _ _ _ _ _ Hrec Hed Hec) in E.
    exists c, ed, ec. split_and!; [done..|]. by injection E.
  - left. unfold planDesired, bind in E. rewrite Hrec in E.
    injection E as <- <-. done.
Qed.

Lemma planDesired_stable σ cur ch d ch' σ' :
  planDesired cur ch d σ = Some (ch', σ') → stable σ σ'.
Proof.
  intros [(_ & _ & ->)|(c & ed & ec & _ & Hd & _ & E)]%planDesired_inv.
  - apply stable_refl.
  - destruct (targetDiffers ed ec || ttlDiffers ed ec); injection E as -> ->.
    + by apply stable_inherit.
    + apply stable_refl.
Qed.

Lemma forDesired_stable cur l : ∀ ch σ ch' σ',
  forRange (planDesired cur) l ch σ = Some (ch', σ') → stable σ σ'.
Proof.
  induction l as [|d l IH]; intros ch σ ch' σ'; cbn [forRange].
  - intros [= <- <-]. apply stable_refl.
  - unfold bind. destruct (planDesired cur ch d σ) as [[ch1 σ1]|] eqn:E; [|done].
    intros E'. eapply stable_trans; [by eapply planDesired_stable|by eapply IH].
Qed.

Lemma planCurrent_inv σ des ch c ch' σ' :
  planCurrent des ch c σ = Some (ch', σ') → σ' = σ.
Proof.
  unfold planCurrent, bind.
  destruct (recordExists c des σ) as [[found σ1]|] eqn:Hrec; [|done].
  apply recordExists_inv in Hrec as (-> & _). by destruct found; intros [= <- <-].
Qed.

Lemma forCurrent_inv des l : ∀ ch σ ch' σ',
  forRange (planCurrent des) l ch σ = Some (ch', σ') → σ' = σ.
Proof.
  induction l as [|c l IH]; intros ch σ ch' σ'; cbn [forRange].
  - by intros [= <- <-].
  - unfold bind. destruct (planCurrent des ch c σ) as [[ch1 σ1]|] eqn:E; [|done].
    apply planCurrent_inv in E as ->. apply IH.
Qed.

Lemma diff_stable pl σ cs σ1 : diff pl σ = Some (cs, σ1) → stable σ σ1.
Proof.
  unfold diff, bind.
  destruct (forRange (planDesired _) _ _ σ) as [[ch σ']|] eqn:E; [|done].
  intros ->%forCurrent_inv. by eapply forDesired_stable.
Qed.

Lemma Calculate_inv σ p q σ' :
  Calculate p σ = Some (q, σ') →
  ∃ pl cs σ1,
    plans σ !! p = Some pl ∧ diff pl σ = Some (cs, σ1) ∧
    q = fresh (dom (plans σ1)) ∧
    σ' = mkStore (endpoints σ1)
           (<[q := mkPlan (Current pl) (Desired pl) []
                     (Some (applyPolicies (Policies pl) cs))]> (plans σ1)).
Proof.
  unfold Calculate, bind, loadPlan.
  destruct (plans σ !! p) as [pl|] eqn:Hp; [|done].
  destruct (diff pl σ) as [[cs σ1]|] eqn:E; [|done].
  unfold newPlan. intros [= <- <-]. by exists pl, cs, σ1.
Qed.

(** X7. Whatever the lists hold, a call of [Calculate] that returns has
    written no name and no target, has neither added nor dropped a record,
    and has left every plan that was there as it was. *)
Theorem Calculate_keeps_names_and_targets σ p q σ' :
  Calculate p σ = Some (q, σ') →
  (∀ r e, endpoints σ !! r = Some e →
     ∃ e', endpoints σ' !! r = Some e' ∧
           DNSName e' = DNSName e ∧ Target e' = Target e) ∧
  (∀ r, endpoints σ !! r = None → endpoints σ' !! r = None) ∧
  (∀ p' pl', plans σ !! p' = Some pl' → plans σ' !! p' = Some pl').
Proof.
  intros (pl & cs & σ1 & Hp & E & -> & ->)%Calculate_inv.
  destruct (diff_stable _ _ _ _ E) as [Hpl He]. cbn [endpoints plans].
  split_and!.
  - intros r e Hr. specialize (He r). rewrite Hr in He.
    destruct (endpoints σ1 !! r) as [e'|]; [|done]. by exists e'.
  - intros r Hr. specialize (He r). rewrite Hr in He.
    by destruct (endpoints σ1 !! r).
  - intros p' pl' Hp'. rewrite lookup_insert_ne; [by rewrite Hpl|].
    intros <-. rewrite <-Hpl in Hp'.
    by apply (is_fresh (dom (plans σ1))), elem_of_dom.
Qed.

(** *** Empty lists *)

Lemma forDesired_nothing_current l : ∀ ch σ,
  forRange (planDesired []) l ch σ =
    Some (mkChanges (Create ch ++ l) (UpdateOld ch) (UpdateNew ch) (Delete ch), σ).
Proof.
  induction l as [|d l IH]; intros ch σ.
  - cbn. rewrite app_nil_r. by destruct ch.
  - cbn [forRange]. unfold bind. cbn. rewrite IH. cbn. by rewrite <-app_assoc.
Qed.

Lemma forCurrent_nothing_desired l : ∀ ch σ,
  forRange (planCurrent []) l ch σ =
    Some (mkChanges (Create ch) (UpdateOld ch) (UpdateNew ch) (Delete ch ++ l), σ).
Proof.
  induction l as [|c l IH]; intros ch σ.
  - cbn. rewrite app_nil_r. by destruct ch.
  - cbn [forRange]. unfold bind. cbn. rewrite IH. cbn. by rewrite <-app_assoc.
Qed.

Lemma diff_nothing_current σ pl :
  Current pl = [] → diff pl σ = Some (mkChanges (Desired pl) [] [] [], σ).
Proof.
  intros Hcur. unfold diff, bind. by rewrite Hcur, forDesired_nothing_current.
Qed.

Lemma diff_nothing_desired σ pl :
  Desired pl = [] → diff pl σ = Some (mkChanges [] [] [] (Current pl), σ).
Proof.
  intros Hdes. unfold diff, bind. rewrite Hdes. cbn [forRange]. unfold ret.
  by rewrite forCurrent_nothing_desired.
Qed.

Lemma Calculate_of_diff σ p pl cs σ1 :
  plans σ !! p = Some pl → diff pl σ = Some (cs, σ1) →
  Calculate p σ =
    Some (fresh (dom (plans σ1)),
          mkStore (endpoints σ1)
            (<[fresh (dom (plans σ1)) :=
                 mkPlan (Current pl) (Desired pl) []
                   (Some (applyPolicies (Policies pl) cs))]> (plans σ1))).
Proof.
  intros Hp E. unfold Calculate, bind, loadPlan, newPlan. by rewrite Hp, E.
Qed.

(** X2. With an empty current list [Calculate] reads no record at all: it
    returns even if desired pointers are [nil], the diffed change set is the
    desired list itself in [Create] and nothing else, and no record is
    written. *)
Theorem Calculate_nothing_current σ p pl :
  plans σ !! p = Some pl → Current pl = [] →
  ∃ q σ',
    Calculate p σ = Some (q, σ') ∧
    diff pl σ = Some (mkChanges (Desired pl) [] [] [], σ) ∧
    plans σ' !! q =
      Some (mkPlan [] (Desired pl) []
              (Some (applyPolicies (Policies pl) (mkChanges (Desired pl) [] [] [])))) ∧
    endpoints σ' = endpoints σ.
Proof.
  intros Hp Hcur. pose proof (diff_nothing_current σ pl Hcur) as E.
  eexists _, _. rewrite (Calculate_of_diff _ _ _ _ _ Hp E), Hcur.
  split_and!; [done..| |done]. cbn [plans]. by rewrite lookup_insert_eq.
Qed.

(** X3. With an empty desired list [Calculate] reads no record either: it
    returns even if current pointers are [nil], the diffed change set is the
    current list itself in [Delete] and nothing else, and no record is
    written. *)
Theorem Calculate_nothing_desired σ p pl :
  plans σ !! p = Some pl → Desired pl = [] →
  ∃ q σ',
    Calculate p σ = Some (q, σ') ∧
    diff pl σ = Some (mkChanges [] [] [] (Current pl), σ) ∧
    plans σ' !! q =
      Some (mkPlan (Current pl) [] []
              (Some (applyPolicies (Policies pl) (mkChanges [] [] [] (Current pl))))) ∧
    endpoints σ' = endpoints σ.
Proof.
  intros Hp Hdes. pose proof (diff_nothing_desired σ pl Hdes) as E.
  eexists _, _. rewrite (Calculate_of_diff _ _ _ _ _ Hp E), Hdes.
  split_and!; [done..| |done]. cbn [plans]. by rewrite lookup_insert_eq.
Qed.

(** *** Panics *)





(** *** Lists with duplicates *)

Lemma differs_inherit (d c : Endpoint) :
  targetDiffers (inherit d c) c = targetDiffers d c ∧
  ttlDiffers (inherit d c) c = ttlDiffers d c.
Proof.
  split; [done|]. unfold inherit. cbn [RecordTTL].
  destruct (ttlDiffers d c) eqn:E; [done|].
  unfold ttlDiffers. cbn [RecordTTL].
  rewrite bool_decide_eq_true_2 by done. apply andb_false_r.
Qed.

Lemma omap_ext_in {A B} (f g : A → option B) (l : list A) :
  (∀ x, x ∈ l → f x = g x) → omap f l = omap g l.
Proof.
  induction l as [|x l IH]; intros E; [done|]. cbn.
  rewrite (E x), IH by (try intros y ?; try apply E; by constructor). done.
Qed.

Lemma matchOf_ext σ σ2 l r :
  (∀ x, nameOf σ2 x = nameOf σ x) → matchOf σ2 l r = matchOf σ l r.
Proof. intros E. unfold matchOf. rewrite E. apply findName_ext_in. auto. Qed.

(** A match is the first record of its own name. *)
Lemma matchOf_first σ cur d c :
  matchOf σ cur d = Some c → matchOf σ cur c = Some c.
Proof.
  intros Hm. destruct (findName_elem _ _ _ _ Hm) as [_ Hn].
  unfold matchOf in *. by rewrite Hn.
Qed.

Lemma agrees_refl cur σ : agrees cur σ σ.
Proof. split; [apply stable_refl|]. intros d c ed ec _ Hd Hc. by exists ed. Qed.

Lemma agrees_step cur σ0 σ d1 c1 ed1 ec1 :
  agrees cur σ0 σ →
  matchOf σ cur d1 = Some c1 →
  endpoints σ !! d1 = Some ed1 → endpoints σ !! c1 = Some ec1 →
  targetDiffers ed1 ec1 || ttlDiffers ed1 ec1 = true →
  agrees cur σ0 (mkStore (<[d1 := inherit ed1 ec1]> (endpoints σ)) (plans σ)).
Proof.
  intros [Hs Hag] Hm1 Hd1 Hc1 Hch. split.
  { eapply stable_trans; [done|]. by apply stable_inherit. }
  intros d c ed ec Hm Hd Hc.
  destruct (Hag d c ed ec Hm Hd Hc) as (ed' & Hd' & Hc' & Ht & Hl).
  rewrite (stable_matchOf _ _ _ _ Hs) in Hm1. cbn [endpoints].
  assert (c ≠ d1) as Hne.
  { intros ->. apply matchOf_first in Hm. rewrite Hm in Hm1.
    injection Hm1 as <-. assert (ec1 = ed1) as -> by congruence.
    destruct (differs_self ed1) as [E1 E2]. by rewrite E1, E2 in Hch. }
  rewrite (lookup_insert_ne _ d1 c) by done.
  destruct (decide (d = d1)) as [->|Hdne].
  - rewrite Hm in Hm1. injection Hm1 as <-.
    assert (ed' = ed1) as -> by congruence.
    assert (ec1 = ec) as -> by congruence.
    exists (inherit ed1 ec). rewrite lookup_insert_eq.
    destruct (differs_inherit ed1 ec) as [-> ->]. done.
  - exists ed'. by rewrite lookup_insert_ne.
Qed.

(** The first loop on any lists without [nil]: the pairs it appends and the
    records it leaves, in terms of the store [σ0] the call started from. *)
Lemma forDesired_pairs cur σ0 l : ∀ ch σ,
  allocated σ0 cur → allocated σ0 l → agrees cur σ0 σ →
  ∃ ch' σ',
    forRange (planDesired cur) l ch σ = Some (ch', σ') ∧
    agrees cur σ0 σ' ∧
    UpdateOld ch' = UpdateOld ch ++ (omap (updateOf σ0 cur) l).*1 ∧
    UpdateNew ch' = UpdateNew ch ++ (omap (updateOf σ0 cur) l).*2 ∧
    (∀ r, r ∉ l → endpoints σ' !! r = endpoints σ !! r) ∧
    (NoDup l → (∀ d, d ∈ l → endpoints σ !! d = endpoints σ0 !! d) →
     ∀ d, d ∈ l → endpoints σ' !! d = finalOf σ0 cur d).
Proof.
  induction l as [|d l IH]; intros ch σ Hcur Hl Hag.
  { exists ch, σ. cbn. rewrite !app_nil_r. split_and!; try done.
    intros _ _ d Hd. by apply elem_of_nil in Hd. }
  apply Forall_cons in Hl as [[ed0 Hd0] Hl].
  pose proof Hag as [Hs Hdec].
  assert (allocated σ cur) as Hcurσ by eauto using stable_allocated.
  assert (∃ ch1 σ1,
    planDesired cur ch d σ = Some (ch1, σ1) ∧ agrees cur σ0 σ1 ∧
    UpdateOld ch1 = UpdateOld ch ++ (omap (updateOf σ0 cur) [d]).*1 ∧
    UpdateNew ch1 = UpdateNew ch ++ (omap (updateOf σ0 cur) [d]).*2 ∧
    (∀ r, r ≠ d → endpoints σ1 !! r = endpoints σ !! r) ∧
    (endpoints σ !! d = endpoints σ0 !! d → endpoints σ1 !! d = finalOf σ0 cur d))
    as (ch1 & σ1 & E1 & Hag1 & HO1 & HN1 & Hfr1 & Hfin1).
  { cbn [omap list_omap]. unfold updateOf, finalOf. rewrite Hd0.
    destruct (matchOf σ0 cur d) as [c|] eqn:Hm.
    - destruct (matchOf_allocated _ _ _ _ Hcur Hm) as (_ & _ & [ec Hc]).
      rewrite Hc.
      destruct (Hdec d c ed0 ec Hm Hd0 Hc) as (ed' & Hd' & Hc' & Ht & Hl').
      assert (matchOf σ cur d = Some c) as Hmσ
        by by rewrite (stable_matchOf _ _ _ _ Hs).
      destruct (targetDiffers ed0 ec || ttlDiffers ed0 ec) eqn:Hch.
      + assert (targetDiffers ed' ec || ttlDiffers ed' ec = true) as Hch'
          by by rewrite Ht, Hl'.
        eexists _, _. split; [by apply (planDesired_update σ cur ch d c ed' ec)|].
        split; [by eapply agrees_step|]. cbn. split_and!; [done..| |].
        * intros r Hr. by rewrite lookup_insert_ne.
        * intros E. rewrite lookup_insert_eq. congruence.
      + assert (targetDiffers ed' ec = false ∧ ttlDiffers ed' ec = false) as [? ?].
        { rewrite Ht, Hl'. by apply orb_false_iff. }
        exists ch, σ. split; [by apply (planDesired_skip σ cur ch d c ed' ec)|].
        cbn. rewrite !app_nil_r. split_and!; try done; congruence.
    - exists (appendCreate ch d), σ.
      assert (is_Some (endpoints σ !! d)) as Hdσ.
      { apply nameOf_is_Some. rewrite (stable_nameOf _ _ _ Hs).
        apply nameOf_is_Some. by eexists. }
      split; [apply planDesired_create; [done..|]|].
      { by rewrite <-(stable_matchOf _ _ _ _ Hs) in Hm. }
      cbn. rewrite !app_nil_r. split_and!; try done; congruence. }
  destruct (IH ch1 σ1 Hcur Hl Hag1)
    as (ch' & σ' & E' & Hag' & HO & HN & Hfr & Hfin).
  exists ch', σ'. cbn [forRange]. unfold bind. rewrite E1.
  split_and!; [done..| | | |].
  - rewrite HO, HO1, <-app_assoc, <-fmap_app. do 2 f_equal.
    by rewrite <-omap_app.
  - rewrite HN, HN1, <-app_assoc, <-fmap_app. do 2 f_equal.
    by rewrite <-omap_app.
  - intros r [Hr1 Hr2]%not_elem_of_cons. by rewrite Hfr, Hfr1.
  - intros [Hdl Hnd]%NoDup_cons Hsame x Hx.
    apply elem_of_cons in Hx as [->|Hx].
    + rewrite Hfr by done. apply Hfin1, Hsame. by left.
    + apply Hfin; [done| |done]. intros y Hy.
      rewrite Hfr1 by (intros ->; done). apply Hsame. by right.
Qed.

Lemma diff_pairs σ pl :
  allocated σ (Desired pl) → allocated σ (Current pl) →
  ∃ cs σ1,
    diff pl σ = Some (cs, σ1) ∧
    agrees (Current pl) σ σ1 ∧
    UpdateOld cs = (omap (updateOf σ (Current pl)) (Desired pl)).*1 ∧
    UpdateNew cs = (omap (updateOf σ (Current pl)) (Desired pl)).*2 ∧
    (∀ r, r ∉ Desired pl → endpoints σ1 !! r = endpoints σ !! r) ∧
    (NoDup (Desired pl) →
     ∀ d, d ∈ Desired pl → endpoints σ1 !! d = finalOf σ (Current pl) d).
Proof.
  intros Hdes Hcur.
  destruct (forDesired_pairs (Current pl) σ (Desired pl) emptyChanges σ
              Hcur Hdes (agrees_refl _ _))
    as (ch & σ1 & E & Hag & HO & HN & Hfr & Hfin).
  eexists _, σ1. unfold diff, bind. rewrite E.
  rewrite forCurrent_spec by (destruct Hag; eauto using stable_allocated).
  split_and!; [done..|]. intros Hnd. by apply Hfin.
Qed.

Lemma allocated_endpoints σ σ2 l :
  endpoints σ2 = endpoints σ → allocated σ l → allocated σ2 l.
Proof. intros E. unfold allocated. by rewrite E. Qed.

(** [Calculate] on lists without [nil], with everything known about the
    diffed change set [cs] and the store it leaves. *)
Lemma Calculate_full σ p pl :
  planAt σ p pl →
  ∃ cs σ1 q σ',
    diff pl σ = Some (cs, σ1) ∧
    Calculate p σ = Some (q, σ') ∧
    Calculated p σ (applyPolicies (Policies pl) cs) σ' ∧
    endpoints σ' = endpoints σ1 ∧
    plans σ' !! q = Some (mkPlan (Current pl) (Desired pl) []
                            (Some (applyPolicies (Policies pl) cs))) ∧
    agrees (Current pl) σ σ1 ∧
    Create cs = filter (λ d, matchOf σ (Current pl) d = None) (Desired pl) ∧
    Delete cs = filter (λ c, matchOf σ (Desired pl) c = None) (Current pl) ∧
    UpdateOld cs = (omap (updateOf σ (Current pl)) (Desired pl)).*1 ∧
    UpdateNew cs = (omap (updateOf σ (Current pl)) (Desired pl)).*2 ∧
    (∀ r, r ∉ Desired pl → endpoints σ1 !! r = endpoints σ !! r) ∧
    (NoDup (Desired pl) →
     ∀ d, d ∈ Desired pl → endpoints σ1 !! d = finalOf σ (Current pl) d).
Proof.
  intros Hp.
  destruct (Calculate_spec σ p pl Hp)
    as (cs & σ1 & q & E & Hs & Hq & EC & HC & HD & _).
  destruct Hp as (Hpl & Hdes & Hcur).
  destruct (diff_pairs σ pl Hdes Hcur)
    as (cs' & σ1' & E' & Hag & HO & HN & Hfr & Hfin).
  rewrite E in E'. injection E' as <- <-.
  exists cs, σ1, q. eexists. split; [done|]. split; [exact EC|].
  split; [by eapply Calculated_intro|]. cbn [endpoints plans].
  rewrite lookup_insert_eq. done.
Qed.

(** X4. [Create] is the desired list cut down, order and repetitions
    kept, to the records whose name no current record has, and [Delete] is
    the current list cut down likewise to the records whose name no desired
    record has; this is the change set the policies are then applied to. *)
Theorem Calculate_create_delete_in_order σ p pl :
  planAt σ p pl →
  ∃ cs σ',
    Calculated p σ (applyPolicies (Policies pl) cs) σ' ∧
    Create cs = filter (λ d, matchOf σ (Current pl) d = None) (Desired pl) ∧
    Delete cs = filter (λ c, matchOf σ (Desired pl) c = None) (Current pl) ∧
    (∀ l r, matchOf σ l r = None ↔ ∀ x, x ∈ l → nameOf σ x ≠ nameOf σ r).
Proof.
  intros Hp.
  destruct (Calculate_full σ p pl Hp)
    as (cs & σ1 & q & σ' & _ & _ & HCal & _ & _ & _ & HC & HD & _).
  exists cs, σ'. split_and!; [done..|]. intros l r. apply matchOf_None.
Qed.

(** X5. For any lists, repetitions of names and of pointers included,
    the update lists are built in the order of the desired list: each desired
    record that differs (in target, or in a configured TTL) from the first
    current record of its name gives one pair of that current record and
    itself, where "differs" is judged on the records as they were before the
    call; no other pair is made. *)
Theorem Calculate_updates_in_order σ p pl :
  planAt σ p pl →
  ∃ cs σ',
    Calculated p σ (applyPolicies (Policies pl) cs) σ' ∧
    UpdateOld cs = (omap (updateOf σ (Current pl)) (Desired pl)).*1 ∧
    UpdateNew cs = (omap (updateOf σ (Current pl)) (Desired pl)).*2.
Proof.
  intros Hp.
  destruct (Calculate_full σ p pl Hp)
    as (cs & σ1 & q & σ' & _ & _ & HCal & _ & _ & _ & _ & _ & HO & HN & _).
  by exists cs, σ'.
Qed.

(** X6. When no pointer is listed twice in the desired list, the store
    after [Calculate] is known record by record: a desired record that
    differs from its match holds the inherited fields, computed from the two
    records as they were before the call; every other record, desired or
    not, is as it was. *)
Theorem Calculate_final_store σ p pl :
  planAt σ p pl → NoDup (Desired pl) →
  ∃ q σ',
    Calculate p σ = Some (q, σ') ∧
    (∀ d, d ∈ Desired pl → endpoints σ' !! d = finalOf σ (Current pl) d) ∧
    (∀ r, r ∉ Desired pl → endpoints σ' !! r = endpoints σ !! r).
Proof.
  intros Hp Hnd.
  destruct (Calculate_full σ p pl Hp)
    as (cs & σ1 & q & σ' & _ & E & _ & Hσ' & _ & _ & _ & _ & _ & _ & Hfr & Hfin).
  exists q, σ'. rewrite Hσ'. split_and!; [done| |done]. by apply Hfin.
Qed.

Lemma updateOf_agrees cur σ σ1 σ2 d :
  allocated σ cur → is_Some (endpoints σ !! d) →
  agrees cur σ σ1 → endpoints σ2 = endpoints σ1 →
  updateOf σ2 cur d = updateOf σ cur d.
Proof.
  intros Hcur [ed Hd] [Hs Hdec] Hσ2. unfold updateOf.
  rewrite (matchOf_ext σ σ2).
  2:{ intros x. rewrite <-(stable_nameOf _ _ _ Hs). by apply nameOf_endpoints. }
  destruct (matchOf σ cur d) as [c|] eqn:Hm; [|done].
  destruct (matchOf_allocated _ _ _ _ Hcur Hm) as (_ & _ & [ec Hc]).
  destruct (Hdec d c ed ec Hm Hd Hc) as (ed' & Hd' & Hc' & Ht & Hl).
  by rewrite Hσ2, Hd', Hc', Hd, Hc, Ht, Hl.
Qed.

(** X8. The plan [Calculate] returns carries no policies, and the writes
    of the first call do not change how any record compares with its match:
    calling [Calculate] on the returned plan, with the current records still
    as they were, gives the diffed change set of the first call again, before
    any policy. *)
Theorem Calculate_again σ p pl :
  planAt σ p pl →
  ∃ cs σ1 q σ' σ'',
    diff pl σ = Some (cs, σ1) ∧
    Calculate p σ = Some (q, σ') ∧
    Calculated q σ' cs σ''.
Proof.
  intros Hp.
  destruct (Calculate_full σ p pl Hp)
    as (cs & σ1 & q & σ' & E & EC & _ & Hσ' & Hq & Hag & HC & HD & HO & HN & _).
  destruct Hp as (_ & Hdes & Hcur). pose proof Hag as [Hs _].
  assert (∀ x, nameOf σ' x = nameOf σ x) as Hnames.
  { intros x. rewrite <-(stable_nameOf _ _ _ Hs). by apply nameOf_endpoints. }
  set (pl' := mkPlan (Current pl) (Desired pl) []
                (Some (applyPolicies (Policies pl) cs))) in *.
  assert (planAt σ' q pl') as Hp'.
  { split_and!; [done|..]; apply (allocated_endpoints σ1); [done| |done|];
      by eapply stable_allocated. }
  destruct (Calculate_full σ' q pl' Hp')
    as (cs2 & σ2 & q2 & σ'' & _ & _ & HCal & _ & _ & _ & HC2 & HD2 & HO2 & HN2 & _).
  cbn [Current Desired Policies pl' applyPolicies] in *.
  assert (cs2 = cs) as ->; [|by exists cs, σ1, q, σ', σ''].
  assert (omap (updateOf σ' (Current pl)) (Desired pl)
          = omap (updateOf σ (Current pl)) (Desired pl)) as Hupd.
  { apply omap_ext_in. intros d Hd. apply (updateOf_agrees _ _ σ1); [done| |done..].
    unfold allocated in Hdes. rewrite Forall_forall in Hdes. auto. }
  destruct cs2, cs. cbn in *. subst. rewrite Hupd. f_equal.
  - apply list_filter_iff. intros d. by rewrite (matchOf_ext σ σ').
  - apply list_filter_iff. intros c. by rewrite (matchOf_ext σ σ').
Qed.

(** X9. Exchanging the desired and the current list exchanges [Create]
    and [Delete]. *)
Theorem Calculate_mirror σ p pl p2 pl2 :
  planAt σ p pl → planAt σ p2 pl2 →
  Current pl2 = Desired pl → Desired pl2 = Current pl →
  ∃ cs σ' cs2 σ2',
    Calculated p σ (applyPolicies (Policies pl) cs) σ' ∧
    Calculated p2 σ (applyPolicies (Policies pl2) cs2) σ2' ∧
    Create cs2 = Delete cs ∧ Delete cs2 = Create cs.
Proof.
  intros Hp Hp2 Hcur Hdes.
  destruct (Calculate_full σ p pl Hp)
    as (cs & σ1 & q & σ' & _ & _ & HCal & _ & _ & _ & HC & HD & _).
  destruct (Calculate_full σ p2 pl2 Hp2)
    as (cs2 & σ2 & q2 & σ2' & _ & _ & HCal2 & _ & _ & _ & HC2 & HD2 & _).
  exists cs, σ', cs2, σ2'. rewrite HC, HD, HC2, HD2, Hcur, Hdes. done.
Qed.

(** X10. The lookup stops at the first record of the needle's name: what
    comes after it in the list is not read and may be [nil]; a [nil] pointer
    that comes before any match is a panic. *)
Theorem recordExists_first_match_only σ needle l1 r l2 :
  is_Some (endpoints σ !! needle) → allocated σ l1 →
  (∀ x, x ∈ l1 → nameOf σ x ≠ nameOf σ needle) →
  (nameOf σ r = nameOf σ needle →
     recordExists needle (l1 ++ r :: l2) σ = Some (Some r, σ)) ∧
  (endpoints σ !! r = None →
     recordExists needle (l1 ++ r :: l2) σ = None).
Proof.
  intros [en Hn] Hl1 Hno.
  induction Hl1 as [|x l1 [ex Hx] Hl1 IH]; cbn [app recordExists]; unfold bind.
  - split.
    + intros Hr. rewrite (nameOf_Some _ _ _ Hn) in Hr.
      destruct (endpoints σ !! r) as [er|] eqn:Er; [|by unfold nameOf in Hr; rewrite Er in Hr].
      rewrite (load_Some _ _ _ Er), (load_Some _ _ _ Hn).
      rewrite (nameOf_Some _ _ _ Er) in Hr. injection Hr as Hr.
      by rewrite bool_decide_eq_true_2.
    + intros Er. by rewrite (load_None _ _ Er).
  - rewrite (load_Some _ _ _ Hx), (load_Some _ _ _ Hn).
    assert (DNSName ex ≠ DNSName en) as Hne.
    { intros E. apply (Hno x); [by left|].
      by rewrite (nameOf_Some _ _ _ Hx), (nameOf_Some _ _ _ Hn), E. }
    rewrite bool_decide_eq_false_2 by done.
    apply IH. intros y Hy. apply Hno. by right.
Qed.


End planner_more.

(** ** The planner on the example lists *)

Section planner_examples.
#[local] Existing Instance specEndpoint.

Abbreviation Endpoint := (Endpoint TTL).
Abbreviation Store := (Store TTL).

Ltac evaluated := vm_compute; reflexivity.
Ltac there := unfold allocated; apply (bool_decide_unpack _); evaluated.

(** [Calculate] run on the three example plans. *)
Lemma Calculate_planUpdate :
  Calculate 10%positive (exampleStore planUpdate) =
    Some (11%positive,
          mkStore
            (<[2%positive := mkEndpoint "a.example.org" "2.2.2.2" "A" (Some 300%Z)
                               (ownedBy "me")]> exampleRecords)
            (<[11%positive := mkPlan [1; 5]%positive [2; 4]%positive []
                                (Some (mkChanges [4%positive] [1%positive]
                                         [2%positive] [5%positive]))]>
               {[ 10%positive := planUpdate ]})).
Proof. evaluated. Qed.

Lemma Calculate_planTwice :
  Calculate 10%positive (exampleStore planTwice) =
    Some (11%positive,
          mkStore exampleRecords
            (<[11%positive := mkPlan [5; 5]%positive [] []
                                (Some (mkChanges [] [] [] [5; 5]%positive))]>
               {[ 10%positive := planTwice ]})).
Proof. evaluated. Qed.

Lemma Calculate_planTwoDesired :
  Calculate 10%positive (exampleStore planTwoDesired) =
    Some (11%positive,
          mkStore
            (<[3%positive := mkEndpoint "a.example.org" "3.3.3.3" "A" (Some 300%Z)
                               (ownedBy "me")]>
               (<[2%positive := mkEndpoint "a.example.org" "2.2.2.2" "A" (Some 300%Z)
                                  (ownedBy "me")]> exampleRecords))
            (<[11%positive := mkPlan [1]%positive [2; 3]%positive []
                                (Some (mkChanges [] [1; 1]%positive
                                         [2; 3]%positive []))]>
               {[ 10%positive := planTwoDesired ]})).
Proof. evaluated. Qed.

(** With the policies "sync" then "upsert-only" the deletion is gone. *)
Lemma Calculate_planPolicies :
  (λ r, PlanChanges <$> plans r.2 !! r.1)
    <$> Calculate 10%positive (exampleStore planPolicies) =
  Some (Some (Some (mkChanges [4%positive] [1%positive] [2%positive] []))).
Proof. evaluated. Qed.

Lemma Calculated_planTwice :
  Calculated 10%positive (exampleStore planTwice)
    (mkChanges [] [] [] [5; 5]%positive)
    (mkStore exampleRecords
       (<[11%positive := mkPlan [5; 5]%positive [] []
                           (Some (mkChanges [] [] [] [5; 5]%positive))]>
          {[ 10%positive := planTwice ]})).
Proof. eapply Calculated_intro; [apply Calculate_planTwice|done]. Qed.

Lemma Calculated_planTwoDesired :
  Calculated 10%positive (exampleStore planTwoDesired)
    (mkChanges [] [1; 1]%positive [2; 3]%positive [])
    (mkStore
       (<[3%positive := mkEndpoint "a.example.org" "3.3.3.3" "A" (Some 300%Z)
                          (ownedBy "me")]>
          (<[2%positive := mkEndpoint "a.example.org" "2.2.2.2" "A" (Some 300%Z)
                             (ownedBy "me")]> exampleRecords))
       (<[11%positive := mkPlan [1]%positive [2; 3]%positive []
                           (Some (mkChanges [] [1; 1]%positive
                                    [2; 3]%positive []))]>
          {[ 10%positive := planTwoDesired ]})).
Proof. eapply Calculated_intro; [apply Calculate_planTwoDesired|done]. Qed.

(** C1 as it is stated fails: the current list may hold the same record
    twice (a slice of pointers can), its name is in the current list only,
    and it is put in [Delete] twice, not once. *)
Lemma Calculate_partition_once_fails :
  ¬ (∀ σ p pl cs σ',
       planAt σ p pl → Policies pl = [] → Calculated p σ cs σ' →
       ∀ r n, r ∈ Current pl → nameOf σ r = Some n →
              ¬ hasName σ n (Desired pl) →
              countPtr r (Delete cs) = 1).
Proof.
  intros Hclaim.
  assert (planAt (exampleStore planTwice) 10%positive planTwice) as Hp
    by (split_and!; [evaluated|there..]).
  specialize (Hclaim _ _ _ _ _ Hp eq_refl Calculated_planTwice
                5%positive "c.example.org").
  assert (countPtr 5%positive (Delete (mkChanges [] [] [] [5; 5]%positive)) = 2)
    as Htwo by evaluated.
  rewrite Hclaim in Htwo; [done| |evaluated|].
  - by left.
  - intros (r & Hr & _). cbn in Hr. by apply elem_of_nil in Hr.
Qed.

(** C2 as it is stated fails: two desired records of one name that both
    differ from the current record of that name give two pairs of that name,
    not one. *)
Lemma Calculate_update_once_fails :
  ¬ (∀ σ p pl cs σ' d c ed ec,
       planAt σ p pl → Policies pl = [] → Calculated p σ cs σ' →
       d ∈ Desired pl → c ∈ Current pl →
       endpoints σ !! d = Some ed → endpoints σ !! c = Some ec →
       DNSName ed = DNSName ec →
       (Target ed ≠ Target ec ∨
        (IsConfigured (RecordTTL ed) = true ∧ RecordTTL ed ≠ RecordTTL ec)) →
       countName σ' (DNSName ed) (UpdateOld cs) = 1 ∧
       countName σ' (DNSName ed) (UpdateNew cs) = 1).
Proof.
  intros Hclaim.
  assert (planAt (exampleStore planTwoDesired) 10%positive planTwoDesired) as Hp
    by (split_and!; [evaluated|there..]).
  specialize (Hclaim _ _ _ _ _ 2%positive 1%positive recA2 recA1
                Hp eq_refl Calculated_planTwoDesired).
  destruct Hclaim as [Hold _].
  - by left.
  - by left.
  - evaluated.
  - evaluated.
  - done.
  - by left.
  - vm_compute in Hold. discriminate Hold.
Qed.

(** *** The theorems at the example lists *)

Lemma recordExists_by_name_witness :
  is_Some (endpoints (exampleStore planUpdate) !! 2%positive) ∧
  allocated (exampleStore planUpdate) [1; 5]%positive ∧
  ∃ found, recordExists 2%positive [1; 5]%positive (exampleStore planUpdate)
           = Some (found, exampleStore planUpdate).
Proof.
  assert (is_Some (endpoints (exampleStore planUpdate) !! 2%positive)) as H1
    by (exists recA2; evaluated).
  assert (allocated (exampleStore planUpdate) [1; 5]%positive) as H2 by there.
  split_and!; [exact H1|exact H2|].
  destruct (recordExists_by_name _ _ _ H1 H2) as (found & E & _).
  exists found. exact E.
Defined.

Lemma Calculate_policies_witness :
  planAt (exampleStore planPolicies) 10%positive planPolicies ∧
  ∃ cs σ',
    Calculated 10%positive (exampleStore planPolicies)
      (foldl (λ acc pol, Apply pol acc) cs [SyncPolicy; UpsertOnlyPolicy]) σ'.
Proof.
  assert (planAt (exampleStore planPolicies) 10%positive planPolicies) as Hp
    by (split_and!; [evaluated|there..]).
  split; [exact Hp|].
  destruct (Calculate_policies _ _ _ Hp) as (cs & σ1 & σ' & _ & HCal & _).
  exists cs, σ'. exact HCal.
Defined.

Lemma Calculate_update_pairs_witness :
  planAt (exampleStore planUpdate) 10%positive planUpdate ∧
  ∃ cs σ',
    Calculated 10%positive (exampleStore planUpdate) cs σ' ∧
    length (UpdateOld cs) = length (UpdateNew cs).
Proof.
  assert (planAt (exampleStore planUpdate) 10%positive planUpdate) as Hp
    by (split_and!; [evaluated|there..]).
  split; [exact Hp|].
  destruct (Calculate_update_pairs _ _ _ Hp eq_refl) as (cs & σ' & HCal & Hlen & _).
  exists cs, σ'. split; [exact HCal|exact Hlen].
Defined.

Lemma Calculate_frame_witness :
  planAt (exampleStore planUpdate) 10%positive planUpdate ∧
  ∃ q σ',
    Calculate 10%positive (exampleStore planUpdate) = Some (q, σ') ∧
    plans σ' !! 10%positive = Some planUpdate.
Proof.
  assert (planAt (exampleStore planUpdate) 10%positive planUpdate) as Hp
    by (split_and!; [evaluated|there..]).
  split; [exact Hp|].
  destruct (Calculate_frame _ _ _ Hp)
    as (cs & σ1 & q & σ' & _ & E & _ & _ & _ & _ & _ & _ & Hsame).
  exists q, σ'. split; [exact E|exact Hsame].
Defined.

Lemma Calculate_partition_witness :
  planAt (exampleStore planUpdate) 10%positive planUpdate ∧
  ∃ cs σ',
    Calculated 10%positive (exampleStore planUpdate) cs σ' ∧
    countPtr 5%positive (Delete cs) = countPtr 5%positive (Current planUpdate).
Proof.
  assert (planAt (exampleStore planUpdate) 10%positive planUpdate) as Hp
    by (split_and!; [evaluated|there..]).
  split; [exact Hp|].
  destruct (Calculate_partition _ _ _ Hp eq_refl) as (cs & σ' & HCal & _ & HDel & _).
  exists cs, σ'. split; [exact HCal|].
  apply (HDel 5%positive "c.example.org"); [evaluated|].
  intros (r & Hr & Hn). revert Hn.
  apply elem_of_cons in Hr as [->|Hr]; [by vm_compute|].
  apply elem_of_cons in Hr as [->|Hr]; [by vm_compute|].
  by apply elem_of_nil in Hr.
Defined.

Lemma Calculate_update_iff_witness :
  planAt (exampleStore planUpdate) 10%positive planUpdate ∧
  countName (exampleStore planUpdate) "a.example.org" (Desired planUpdate) = 1 ∧
  recordExists 2%positive (Current planUpdate) (exampleStore planUpdate)
    = Some (Some 1%positive, exampleStore planUpdate) ∧
  ∃ cs σ',
    Calculated 10%positive (exampleStore planUpdate) cs σ' ∧
    countName σ' "a.example.org" (UpdateOld cs) = 1 ∧
    countName σ' "a.example.org" (UpdateNew cs) = 1.
Proof.
  assert (planAt (exampleStore planUpdate) 10%positive planUpdate) as Hp
    by (split_and!; [evaluated|there..]).
  assert (countName (exampleStore planUpdate) "a.example.org"
            (Desired planUpdate) = 1) as Hone by evaluated.
  assert (recordExists 2%positive (Current planUpdate) (exampleStore planUpdate)
          = Some (Some 1%positive, exampleStore planUpdate)) as Hrec by evaluated.
  split_and!; [exact Hp|exact Hone|exact Hrec|].
  destruct (Calculate_update_iff (exampleStore planUpdate) 10%positive planUpdate
              2%positive 1%positive recA2 recA1 Hp eq_refl)
    as (cs & σ' & HCal & _ & _ & Hupd & _);
    [evaluated|evaluated|by left|exact Hone|exact Hrec|].
  exists cs, σ'. split; [exact HCal|].
  destruct Hupd as (Hold & Hnew & _); [by left|]. split; [exact Hold|exact Hnew].
Defined.

Lemma planDesired_update_branch_witness :
  allocated (exampleStore planUpdate) [1; 5]%positive ∧
  recordExists 2%positive [1; 5]%positive (exampleStore planUpdate)
    = Some (Some 1%positive, exampleStore planUpdate) ∧
  Target recA2 ≠ Target recA1 ∧
  ∃ changes' σ' ed',
    planDesired [1; 5]%positive emptyChanges 2%positive (exampleStore planUpdate)
      = Some (changes', σ') ∧
    UpdateNew changes' = [2%positive] ∧
    endpoints σ' !! 2%positive = Some ed' ∧
    RecordType ed' = RecordType recA1 ∧
    RecordTTL ed' = RecordTTL recA1 ∧
    Labels ed' = ownedBy "me".
Proof.
  assert (allocated (exampleStore planUpdate) [1; 5]%positive) as Hcur by there.
  assert (recordExists 2%positive [1; 5]%positive (exampleStore planUpdate)
          = Some (Some 1%positive, exampleStore planUpdate)) as Hrec by evaluated.
  assert (Target recA2 ≠ Target recA1) as Hne by done.
  split_and!; [exact Hcur|exact Hrec|exact Hne|].
  destruct (planDesired_update_branch (exampleStore planUpdate) [1; 5]%positive
              emptyChanges 2%positive 1%positive recA2 recA1 Hcur)
    as (changes' & σ' & ed' & E & _ & HN & _ & _ & Hd & HL & Hty & _ & _ & Httl & _);
    [evaluated|evaluated|exact Hrec|by left|].
  exists changes', σ', ed'.
  split_and!; [exact E|exact HN|exact Hd|apply Hty; exact Hne| |].
  - apply Httl. intros [Hcfg _]. vm_compute in Hcfg. discriminate Hcfg.
  - rewrite HL. evaluated.
Defined.

Lemma Calculate_idempotent_witness :
  planAt (exampleStore planSame) 10%positive planSame ∧
  ∃ σ', Calculated 10%positive (exampleStore planSame) emptyChanges σ'.
Proof.
  assert (planAt (exampleStore planSame) 10%positive planSame) as Hp
    by (split_and!; [evaluated|there..]).
  split; [exact Hp|].
  destruct (Calculate_idempotent (exampleStore planSame) 10%positive planSame
              Hp eq_refl) as (cs & σ' & HCal & HC & HO & HN & HD & _).
  - intros n. unfold hasName.
    split; intros (r & Hr & Hn); exists r; (split; [|exact Hn]);
      apply elem_of_cons in Hr as [->|Hr];
      try apply elem_of_cons in Hr as [->|Hr];
      try (by apply elem_of_nil in Hr);
      repeat constructor.
  - intros d c ed ec Hd Hc Hed Hec.
    apply elem_of_cons in Hd as [->|Hd];
      [|apply elem_of_cons in Hd as [->|Hd]; [|by apply elem_of_nil in Hd]];
      (apply elem_of_cons in Hc as [->|Hc];
       [|apply elem_of_cons in Hc as [->|Hc]; [|by apply elem_of_nil in Hc]]);
      vm_compute in Hed, Hec; injection Hed as <-; injection Hec as <-;
      vm_compute; first [discriminate|done].
  - exists σ'. destruct cs. cbn in HC, HO, HN, HD. subst. exact HCal.
Defined.

End planner_examples.

(** * The endpoint filter *)

Section filter_facts.
Context `{EndpointPkg} `{NetPkg}.

Abbreviation Endpoint := (Endpoint TTL).

Lemma chars_app s1 s2 : chars (s1 +:+ s2) = chars s1 ++ chars s2.
Proof.
  unfold chars. induction s1 as [|a s1 IH]; [done|].
  change (String a s1 +:+ s2) with (String a (s1 +:+ s2)).
  change (String.list_ascii_of_string (String a (s1 +:+ s2)))
    with (a :: String.list_ascii_of_string (s1 +:+ s2)).
  by rewrite IH.
Qed.

Lemma chars_inj s1 s2 : chars s1 = chars s2 → s1 = s2.
Proof.
  intros E. rewrite <-(String.string_of_list_ascii_of_string s1).
  rewrite <-(String.string_of_list_ascii_of_string s2). unfold chars in E.
  by rewrite E.
Qed.

Lemma chars_nil s : chars s = [] → s = EmptyString.
Proof. by destruct s. Qed.

Lemma stripSuffix_app (suffix pre : list ascii) :
  stripSuffix suffix (pre ++ suffix) = Some pre.
Proof.
  unfold stripSuffix. rewrite length_app.
  replace (length pre + length suffix - length suffix) with (length pre) by lia.
  rewrite drop_app_length, take_app_length.
  rewrite !bool_decide_eq_true_2; [done..|lia].
Qed.

Lemma chars_dotted pre suffix :
  chars (pre +:+ "." +:+ suffix) = chars pre ++ (dot :: chars suffix).
Proof. by rewrite chars_app. Qed.

Lemma oneLabel_chars label :
  label ≠ EmptyString → dot ∉ chars label → oneLabel (chars label) = true.
Proof.
  intros Hne Hdot. unfold oneLabel.
  rewrite !bool_decide_eq_false_2; [done..|]. by intros ?%chars_nil.
Qed.

Lemma matchWildcard_one_label suffix label :
  label ≠ EmptyString → dot ∉ chars label → label ≠ "*" →
  matchWildcard suffix (label +:+ "." +:+ suffix) = true.
Proof.
  intros Hne Hdot Hstar. unfold matchWildcard.
  rewrite chars_dotted, stripSuffix_app, oneLabel_chars by done.
  rewrite bool_decide_eq_false_2; [done|].
  intros E. apply Hstar, chars_inj.
  apply (f_equal chars) in E. change (String "*" (String "." suffix))
    with ("*" +:+ "." +:+ suffix) in E.
  rewrite !chars_dotted in E. by apply app_inv_tail in E.
Qed.

Lemma matchWildcard_two_labels suffix a b :
  matchWildcard suffix (a +:+ "." +:+ b +:+ "." +:+ suffix) = false.
Proof.
  unfold matchWildcard.
  replace (chars (a +:+ "." +:+ b +:+ "." +:+ suffix))
    with ((chars a ++ dot :: chars b) ++ dot :: chars suffix).
  2:{ rewrite !chars_app. cbn. by rewrite <-app_assoc. }
  rewrite stripSuffix_app. unfold oneLabel.
  rewrite (bool_decide_eq_true_2 (dot ∈ _)); [by rewrite !andb_false_r|].
  apply elem_of_app. right. by left.
Qed.

Lemma matchWildcard_itself suffix :
  matchWildcard suffix (String "*" (String "." suffix)) = false.
Proof. unfold matchWildcard. by rewrite bool_decide_eq_true_2. Qed.

Lemma cidrExcluded_nil (e : Endpoint) : cidrExcluded [] e = false.
Proof.
  unfold cidrExcluded. case_bool_decide; [|done]. by destruct (ParseIP _).
Qed.

Lemma survives_only_pattern (pattern : string) (e : Endpoint) :
  survives (mkFilterConfig [] [] [pattern]) e = negb (matchIgnore pattern (DNSName e)).
Proof.
  unfold survives. cbn. rewrite cidrExcluded_nil. cbn.
  by rewrite orb_false_r, andb_true_r.
Qed.

Lemma dnsIgnored_true patterns pattern (e : Endpoint) :
  pattern ∈ patterns → matchIgnore pattern (DNSName e) = true →
  dnsIgnored patterns e = true.
Proof.
  intros Hin Hm. unfold dnsIgnored. apply existsb_exists.
  exists pattern. split; [by apply list_elem_of_In|done].
Qed.

(** C8. For a wildcard ignore pattern [*.suffix]: a record named by one
    label followed by [.suffix] is dropped (the label [*] apart, which is the
    third case), whatever else is configured; a record with two labels or more
    before the suffix passes that pattern, and so does the record whose name
    is the pattern itself. *)
Theorem dnsIgnore_wildcard (suffix : string) (e : Endpoint) :
  let pattern := "*." +:+ suffix in
  (∀ label cfg l,
     label ≠ EmptyString → dot ∉ chars label → label ≠ "*" →
     DNSName e = label +:+ "." +:+ suffix →
     pattern ∈ dnsIgnore cfg →
     e ∉ filterEndpoints cfg l) ∧
  (∀ a b l,
     DNSName e = a +:+ "." +:+ b +:+ "." +:+ suffix → e ∈ l →
     e ∈ filterEndpoints (mkFilterConfig [] [] [pattern]) l) ∧
  (∀ l,
     DNSName e = pattern → e ∈ l →
     e ∈ filterEndpoints (mkFilterConfig [] [] [pattern]) l).
Proof.
  cbn zeta. change ("*." +:+ suffix) with (String "*" (String "." suffix)).
  split_and!.
  - intros label cfg l Hne Hdot Hstar Hname Hin [Hs _]%list_elem_of_filter.
    unfold survives in Hs.
    rewrite (dnsIgnored_true _ _ _ Hin) in Hs.
    + by rewrite andb_false_r in Hs.
    + cbn. rewrite Hname. by apply matchWildcard_one_label.
  - intros a b l Hname Hin. apply list_elem_of_filter. split; [|done].
    rewrite survives_only_pattern. cbn.
    by rewrite Hname, matchWildcard_two_labels.
  - intros l Hname Hin. apply list_elem_of_filter. split; [|done].
    rewrite survives_only_pattern. cbn.
    by rewrite Hname, matchWildcard_itself.
Qed.

(** C9. The CIDR rule excludes a record exactly when its type is A, its
    target parses as an IP and a configured network contains that IP.  A
    record so excluded is dropped whatever else is configured; with only
    networks configured a record is dropped exactly when the rule excludes it;
    an A record whose target does not parse and a record of another type are
    never excluded by the rule. *)
Theorem cidr_exclusion (nets : list IPNet) (e : Endpoint) :
  (cidrExcluded nets e = true ↔
     RecordType e = RecordTypeA ∧
     ∃ ip, ParseIP (Target e) = Some ip ∧
           ∃ net, net ∈ nets ∧ Contains net ip = true) ∧
  (∀ cfg l, cidrExcluded (cidrIgnore cfg) e = true → e ∉ filterEndpoints cfg l) ∧
  (∀ l, e ∈ l →
     (e ∈ filterEndpoints (mkFilterConfig [] nets []) l ↔ cidrExcluded nets e = false)) ∧
  (RecordType e = RecordTypeA → ParseIP (Target e) = None →
     cidrExcluded nets e = false) ∧
  (RecordType e ≠ RecordTypeA → cidrExcluded nets e = false).
Proof.
  split_and!.
  - unfold cidrExcluded. case_bool_decide as Hty.
    + destruct (ParseIP (Target e)) as [ip|].
      * rewrite existsb_exists. split.
        -- intros (net & Hin%list_elem_of_In & Hc). eauto 6.
        -- intros (_ & ip' & [= <-] & net & Hin%list_elem_of_In & Hc). eauto.
      * split; [done|]. by intros (_ & ip & ? & _).
    + split; [done|]. by intros [? _].
  - intros cfg l Hex [Hs _]%list_elem_of_filter. unfold survives in Hs.
    by rewrite Hex in Hs.
  - intros l Hin. unfold filterEndpoints. rewrite list_elem_of_filter.
    unfold survives. cbn.
    destruct (cidrExcluded nets e); cbn; split; try done.
    by intros [? _].
  - intros Hty Hip. unfold cidrExcluded. rewrite Hip. by case_bool_decide.
  - intros Hty. unfold cidrExcluded. by rewrite bool_decide_eq_false_2.
Qed.

(** The filter passes a failure of the inner source through. *)
Lemma Endpoints_error {Err : Type} (cfg : FilterConfig) (err : Err) :
  Endpoints cfg (inl err) = inl err.
Proof. done. Qed.

End filter_facts.

(** ** The scenarios of the test and of the spec *)

Section filter_scenarios.
#[local] Existing Instance specEndpoint.
#[local] Existing Instance ipv4.

Ltac evaluated := vm_compute; reflexivity.

(** [net.ParseCIDR("192.168.100.0/24")] is the network of [testCidr]. *)
Lemma testCidr_address : ParseIPv4 "192.168.100.0" = Some 3232261120%N.
Proof. evaluated. Qed.

(** The cases of [testFilterCidrEndpoints]. *)
Lemma filter_cidr_cases :
  filterEndpoints cidrConfig
    [testRecord "foo.example.org" "1.2.3.4" RecordTypeA;
     testRecord "bar.example.org" "4.5.6.7" RecordTypeA]
  = [testRecord "foo.example.org" "1.2.3.4" RecordTypeA;
     testRecord "bar.example.org" "4.5.6.7" RecordTypeA] ∧
  filterEndpoints cidrConfig
    [testRecord "foo.example.org" "1.2.3.4" RecordTypeA;
     testRecord "foo.example.org" "192.168.100.10" RecordTypeCNAME]
  = [testRecord "foo.example.org" "1.2.3.4" RecordTypeA;
     testRecord "foo.example.org" "192.168.100.10" RecordTypeCNAME] ∧
  filterEndpoints cidrConfig
    [testRecord "foo.example.org" "1.2.3.4" RecordTypeA;
     testRecord "foo.example.org" "192.168.100.10" RecordTypeA]
  = [testRecord "foo.example.org" "1.2.3.4" RecordTypeA] ∧
  filterEndpoints cidrConfig
    [testRecord "foo.example.org" "1.2.3.4" RecordTypeA;
     testRecord "bar.example.org" "192.168.100.10" RecordTypeA]
  = [testRecord "foo.example.org" "1.2.3.4" RecordTypeA] ∧
  filterEndpoints cidrConfig
    [testRecord "foo.example.org" "not-an-address" RecordTypeA]
  = [testRecord "foo.example.org" "not-an-address" RecordTypeA].
Proof. split_and!; evaluated. Qed.

(** The cases of [testFilterDNSNames]. *)
Lemma filter_dns_cases :
  filterEndpoints dnsConfig
    [testRecord "foo.bar.example.com" "1.2.3.4" RecordTypeA;
     testRecord "foo.example.org" "1.2.3.4" RecordTypeA]
  = [testRecord "foo.example.org" "1.2.3.4" RecordTypeA] ∧
  filterEndpoints dnsConfig
    [testRecord "foo.example.com" "1.2.3.4" RecordTypeA;
     testRecord "foo.example.org" "1.2.3.4" RecordTypeA]
  = [testRecord "foo.example.org" "1.2.3.4" RecordTypeA] ∧
  filterEndpoints dnsConfig
    [testRecord "bar.foo.example.com" "1.2.3.4" RecordTypeA;
     testRecord "foo.example.org" "1.2.3.4" RecordTypeA]
  = [testRecord "bar.foo.example.com" "1.2.3.4" RecordTypeA;
     testRecord "foo.example.org" "1.2.3.4" RecordTypeA] ∧
  filterEndpoints dnsConfig
    [testRecord "*.example.com" "1.2.3.4" RecordTypeA;
     testRecord "foo.example.org" "1.2.3.4" RecordTypeA]
  = [testRecord "*.example.com" "1.2.3.4" RecordTypeA;
     testRecord "foo.example.org" "1.2.3.4" RecordTypeA].
Proof. split_and!; evaluated. Qed.

(** The base-domain scenario of the spec. *)
Lemma filter_base_domain_case :
  filterEndpoints (mkFilterConfig ["cluster.example.org"] [] [])
    [testRecord "foo.bar.example.com" "1.2.3.6" RecordTypeA;
     testRecord "foo.example.org" "1.2.3.5" RecordTypeA;
     testRecord "foo.cluster.example.org" "1.2.3.4" RecordTypeA]
  = [testRecord "foo.cluster.example.org" "1.2.3.4" RecordTypeA].
Proof. evaluated. Qed.

Lemma dnsIgnore_wildcard_witness :
  ("foo" ≠ EmptyString) ∧ (dot ∉ chars "foo") ∧ ("foo" ≠ "*") ∧
  ("*.example.com" ∈ dnsIgnore dnsConfig) ∧
  (testRecord "foo.example.com" "1.2.3.4" RecordTypeA
     ∉ filterEndpoints dnsConfig
         [testRecord "foo.example.com" "1.2.3.4" RecordTypeA;
          testRecord "foo.example.org" "1.2.3.4" RecordTypeA]) ∧
  (testRecord "bar.foo.example.com" "1.2.3.4" RecordTypeA
     ∈ filterEndpoints (mkFilterConfig [] [] ["*.example.com"])
         [testRecord "bar.foo.example.com" "1.2.3.4" RecordTypeA]) ∧
  (testRecord "*.example.com" "1.2.3.4" RecordTypeA
     ∈ filterEndpoints (mkFilterConfig [] [] ["*.example.com"])
         [testRecord "*.example.com" "1.2.3.4" RecordTypeA]).
Proof.
  assert ("foo" ≠ EmptyString) as H1 by done.
  assert (dot ∉ chars "foo") as H2 by (apply (bool_decide_unpack _); evaluated).
  assert ("foo" ≠ "*") as H3 by done.
  assert ("*.example.com" ∈ dnsIgnore dnsConfig) as H4 by (by left).
  split_and!; [exact H1|exact H2|exact H3|exact H4|..].
  - apply (proj1 (dnsIgnore_wildcard "example.com" _) "foo" dnsConfig);
      [exact H1|exact H2|exact H3|reflexivity|exact H4].
  - apply (proj1 (proj2 (dnsIgnore_wildcard "example.com" _)) "bar" "foo");
      [reflexivity|by left].
  - apply (proj2 (proj2 (dnsIgnore_wildcard "example.com" _)));
      [reflexivity|by left].
Defined.

Lemma cidr_exclusion_witness :
  RecordType (testRecord "foo.example.org" "192.168.100.10" RecordTypeA)
    = RecordTypeA ∧
  cidrExcluded [testCidr]
    (testRecord "foo.example.org" "192.168.100.10" RecordTypeA) = true ∧
  cidrExcluded [testCidr]
    (testRecord "foo.example.org" "192.168.100.10" RecordTypeCNAME) = false ∧
  cidrExcluded [testCidr]
    (testRecord "foo.example.org" "not-an-address" RecordTypeA) = false.
Proof.
  split_and!; [reflexivity|..].
  - apply (proj1 (cidr_exclusion [testCidr] _)). split; [reflexivity|].
    exists 3232261130%N. split; [evaluated|].
    exists testCidr. split; [by left|evaluated].
  - apply (proj2 (proj2 (proj2 (proj2 (cidr_exclusion [testCidr] _))))). done.
  - apply (proj1 (proj2 (proj2 (proj2 (cidr_exclusion [testCidr] _)))));
      [reflexivity|evaluated].
Defined.

End filter_scenarios.

(** ** More of the planner on the example lists *)

Section planner_more_examples.
#[local] Existing Instance specEndpoint.

Abbreviation Endpoint := (Endpoint TTL).
Abbreviation Store := (Store TTL).

Ltac evaluated := vm_compute; reflexivity.
Ltac there := unfold allocated; apply (bool_decide_unpack _); evaluated.

Lemma Calculate_keeps_names_and_targets_witness :
  ∃ e', endpoints
          (mkStore
             (<[2%positive := mkEndpoint "a.example.org" "2.2.2.2" "A" (Some 300%Z)
                                (ownedBy "me")]> exampleRecords)
             (<[11%positive := mkPlan [1; 5]%positive [2; 4]%positive []
                                 (Some (mkChanges [4%positive] [1%positive]
                                          [2%positive] [5%positive]))]>
                {[ 10%positive := planUpdate ]})) !! 2%positive = Some e' ∧
        DNSName e' = DNSName recA2 ∧ Target e' = Target recA2.
Proof.
  destruct (Calculate_keeps_names_and_targets _ _ _ _ Calculate_planUpdate)
    as (Hsame & _).
  apply (Hsame 2%positive recA2). evaluated.
Defined.

Lemma Calculate_nothing_current_witness :
  endpoints (exampleStore planOnlyDesired) !! 99%positive = None ∧
  ∃ q σ',
    Calculate 10%positive (exampleStore planOnlyDesired) = Some (q, σ') ∧
    diff planOnlyDesired (exampleStore planOnlyDesired)
      = Some (mkChanges [99; 2]%positive [] [] [], exampleStore planOnlyDesired).
Proof.
  split; [evaluated|].
  destruct (Calculate_nothing_current (exampleStore planOnlyDesired) 10%positive
              planOnlyDesired) as (q & σ' & E & Hd & _); [evaluated|reflexivity|].
  exists q, σ'. split; [exact E|exact Hd].
Defined.

Lemma Calculate_nothing_desired_witness :
  endpoints (exampleStore planOnlyCurrent) !! 99%positive = None ∧
  ∃ q σ',
    Calculate 10%positive (exampleStore planOnlyCurrent) = Some (q, σ') ∧
    diff planOnlyCurrent (exampleStore planOnlyCurrent)
      = Some (mkChanges [] [] [] [99; 5]%positive, exampleStore planOnlyCurrent).
Proof.
  split; [evaluated|].
  destruct (Calculate_nothing_desired (exampleStore planOnlyCurrent) 10%positive
              planOnlyCurrent) as (q & σ' & E & Hd & _); [evaluated|reflexivity|].
  exists q, σ'. split; [exact E|exact Hd].
Defined.

Lemma Calculate_create_delete_in_order_witness :
  planAt (exampleStore planUpdate) 10%positive planUpdate ∧
  ∃ cs σ',
    Calculated 10%positive (exampleStore planUpdate) cs σ' ∧
    Create cs = [4%positive] ∧ Delete cs = [5%positive].
Proof.
  assert (planAt (exampleStore planUpdate) 10%positive planUpdate) as Hp
    by (split_and!; [evaluated|there..]).
  split; [exact Hp|].
  destruct (Calculate_create_delete_in_order _ _ _ Hp)
    as (cs & σ' & HCal & HC & HD & _).
  exists cs, σ'. split_and!; [exact HCal| |].
  - rewrite HC. evaluated.
  - rewrite HD. evaluated.
Defined.

Lemma Calculate_updates_in_order_witness :
  planAt (exampleStore planTwoDesired) 10%positive planTwoDesired ∧
  ∃ cs σ',
    Calculated 10%positive (exampleStore planTwoDesired) cs σ' ∧
    UpdateOld cs = [1; 1]%positive ∧ UpdateNew cs = [2; 3]%positive.
Proof.
  assert (planAt (exampleStore planTwoDesired) 10%positive planTwoDesired) as Hp
    by (split_and!; [evaluated|there..]).
  split; [exact Hp|].
  destruct (Calculate_updates_in_order _ _ _ Hp) as (cs & σ' & HCal & HO & HN).
  exists cs, σ'. split_and!; [exact HCal| |].
  - rewrite HO. evaluated.
  - rewrite HN. evaluated.
Defined.

Lemma Calculate_final_store_witness :
  planAt (exampleStore planUpdate) 10%positive planUpdate ∧
  NoDup (Desired planUpdate) ∧
  ∃ q σ',
    Calculate 10%positive (exampleStore planUpdate) = Some (q, σ') ∧
    endpoints σ' !! 2%positive
      = Some (mkEndpoint "a.example.org" "2.2.2.2" "A" (Some 300%Z) (ownedBy "me")) ∧
    endpoints σ' !! 4%positive = Some recB.
Proof.
  assert (planAt (exampleStore planUpdate) 10%positive planUpdate) as Hp
    by (split_and!; [evaluated|there..]).
  assert (NoDup (Desired planUpdate)) as Hnd
    by (apply (bool_decide_unpack _); evaluated).
  split_and!; [exact Hp|exact Hnd|].
  destruct (Calculate_final_store _ _ _ Hp Hnd) as (q & σ' & E & Hfin & _).
  exists q, σ'. split_and!; [exact E| |].
  - etransitivity; [apply Hfin; by left|evaluated].
  - etransitivity; [apply Hfin; right; by left|evaluated].
Defined.

Lemma Calculate_again_witness :
  planAt (exampleStore planPolicies) 10%positive planPolicies ∧
  ∃ cs σ1 q σ' σ'',
    diff planPolicies (exampleStore planPolicies) = Some (cs, σ1) ∧
    Calculate 10%positive (exampleStore planPolicies) = Some (q, σ') ∧
    Calculated q σ' cs σ''.
Proof.
  assert (planAt (exampleStore planPolicies) 10%positive planPolicies) as Hp
    by (split_and!; [evaluated|there..]).
  split; [exact Hp|]. exact (Calculate_again _ _ _ Hp).
Defined.

Lemma Calculate_mirror_witness :
  planAt mirrorStore 10%positive planUpdate ∧
  planAt mirrorStore 20%positive planMirror ∧
  ∃ cs σ' cs2 σ2',
    Calculated 10%positive mirrorStore cs σ' ∧
    Calculated 20%positive mirrorStore cs2 σ2' ∧
    Create cs2 = Delete cs ∧ Delete cs2 = Create cs.
Proof.
  assert (planAt mirrorStore 10%positive planUpdate) as Hp
    by (split_and!; [evaluated|there..]).
  assert (planAt mirrorStore 20%positive planMirror) as Hp2
    by (split_and!; [evaluated|there..]).
  split_and!; [exact Hp|exact Hp2|].
  exact (Calculate_mirror _ _ _ _ _ Hp Hp2 eq_refl eq_refl).
Defined.

Lemma recordExists_first_match_only_witness :
  endpoints (exampleStore planUpdate) !! 99%positive = None ∧
  recordExists 2%positive ([5%positive] ++ 1%positive :: [99%positive]) (exampleStore planUpdate)
    = Some (Some 1%positive, exampleStore planUpdate) ∧
  recordExists 2%positive ([5%positive] ++ 99%positive :: [1%positive]) (exampleStore planUpdate)
    = None.
Proof.
  assert (is_Some (endpoints (exampleStore planUpdate) !! 2%positive)) as Hn
    by (exists recA2; evaluated).
  assert (allocated (exampleStore planUpdate) [5%positive]) as Hl by there.
  assert (∀ x, x ∈ [5%positive] →
            nameOf (exampleStore planUpdate) x
            ≠ nameOf (exampleStore planUpdate) 2%positive) as Hno.
  { intros x Hx. apply elem_of_cons in Hx as [->|Hx]; [by vm_compute|].
    by apply elem_of_nil in Hx. }
  split_and!; [evaluated| |].
  - apply (proj1 (recordExists_first_match_only _ _ _ 1%positive [99%positive]
                    Hn Hl Hno)). evaluated.
  - apply (proj2 (recordExists_first_match_only _ _ _ 99%positive [1%positive]
                    Hn Hl Hno)). evaluated.
Defined.


End planner_more_examples.
